(** * Karpenter metrics controllers: node and pod gauges

    A shallow embedding of
    - [pkg/controllers/metrics/node/controller.go] (module [Node]) and
    - the pod metrics controller, package [pod] (module [Pod]),
    together with the parts of Kubernetes' API types, of
    [resource.Quantity] and of Prometheus' [GaugeVec] that the two
    controllers call.

    Conventions.
    - A Go [map] is a stdpp [gmap].  Go leaves the iteration order of a
      map unspecified: every [range] loop over a map takes its order from
      [rangeOrder], an arbitrary enumeration of the map's entries, and
      the theorems hold for every such enumeration.
    - Package-level variables and the fields of [Controller] are threaded
      as an explicit state; a Go function that mutates them and returns
      [error] becomes [State -> option error * State].
    - [float64] is Rocq's primitive binary64 [float]. *)

From Stdlib Require Import ZArith Ascii String List Permutation.
From Stdlib Require Import PrimFloat SpecFloat FloatOps.
From stdpp Require Import gmap strings list fin_maps.

Set Warnings "-inexact-float".
Local Open Scope Z_scope.

(** ** Go strings *)

(** A Go string is a sequence of bytes; so is a Rocq [string]. *)
Definition bytes (s : string) : list N :=
  map N_of_ascii (list_ascii_of_string s).

Definition in_range (lo hi b : N) : bool := ((lo <=? b) && (b <=? hi))%N.

(** [utf8.ValidString]: the accept ranges of the package's table, with
    the narrowed second byte after E0, ED, F0 and F4. *)
Fixpoint utf8_Valid (bs : list N) : bool :=
  match bs with
  | [] => true
  | b0 :: r0 =>
    if (b0 <? 128)%N then utf8_Valid r0
    else if in_range 194 223 b0 then
      match r0 with
      | b1 :: r1 => in_range 128 191 b1 && utf8_Valid r1
      | _ => false
      end
    else if in_range 224 239 b0 then
      match r0 with
      | b1 :: b2 :: r2 =>
        in_range (if (b0 =? 224)%N then 160 else 128)
                 (if (b0 =? 237)%N then 159 else 191) b1
        && in_range 128 191 b2 && utf8_Valid r2
      | _ => false
      end
    else if in_range 240 244 b0 then
      match r0 with
      | b1 :: b2 :: b3 :: r3 =>
        in_range (if (b0 =? 240)%N then 144 else 128)
                 (if (b0 =? 244)%N then 143 else 191) b1
        && in_range 128 191 b2 && in_range 128 191 b3 && utf8_Valid r3
      | _ => false
      end
    else false
  end.

Definition utf8_ValidString (s : string) : bool := utf8_Valid (bytes s).

Fixpoint string_map (f : ascii -> ascii) (s : string) : string :=
  match s with
  | EmptyString => EmptyString
  | String c r => String (f c) (string_map f r)
  end.

Definition lower_byte (c : ascii) : ascii :=
  let n := N_of_ascii c in
  if in_range 65 90 n then ascii_of_N (n + 32) else c.

(** [strings.ToLower] on the letters A-Z.  Resource names and owner kinds
    are ASCII identifiers; bytes above 127 are left as they are. *)
Definition strings_ToLower (s : string) : string := string_map lower_byte s.

(** [strings.ReplaceAll s old new] for one-byte [old] and [new]. *)
Definition strings_ReplaceAll (s : string) (old new : ascii) : string :=
  string_map (fun c => if Ascii.eqb c old then new else c) s.

(** ** resource.Quantity *)

(** A [resource.Quantity] is an exact decimal number; the API server
    parses no amount finer than 10^-9, and [Add] and [Sub] are exact (they
    switch to big decimals when 64 bits overflow).  A quantity is modelled
    by its amount in units of 10^-9. *)
Abbreviation Quantity := Z (only parsing).
Abbreviation ResourceList := (gmap string Z) (only parsing).

(** One thousandth and one whole unit, in units of 10^-9. *)
Definition Milli : Z := 1000000.
Definition Whole : Z := 1000000000.

Definition Quantity_Add (q y : Quantity) : Quantity := q + y.
Definition Quantity_Sub (q y : Quantity) : Quantity := q - y.
Definition Quantity_IsZero (q : Quantity) : bool := q =? 0.
Definition Quantity_DeepCopy (q : Quantity) : Quantity := q.

(** [ScaledValue]: the amount in units of [scale], rounded away from zero
    (the rounding of [negativeScaleInt64]).  The result is an [int64] in
    Go; the model covers the amounts whose scaled value fits it. *)
Definition Quantity_ScaledValue (scale : Z) (q : Quantity) : Z :=
  Z.sgn q * ((Z.abs q + scale - 1) / scale).
Definition Quantity_MilliValue (q : Quantity) : Z := Quantity_ScaledValue Milli q.
Definition Quantity_Value (q : Quantity) : Z := Quantity_ScaledValue Whole q.

(** [float64(i)] for an integer [i]: the nearest binary64 value, ties to
    even. *)
Definition float64 (i : Z) : float :=
  SF2Prim (binary_normalize prec emax i 0 false).

(** ** Errors *)

Inductive error : Type :=
| ErrNotFound                      (* an API error that [errors.IsNotFound] accepts *)
| ErrAPI (msg : string)            (* any other error of the client *)
| ErrCardinality                   (* Prometheus: wrong number of labels *)
| ErrInvalidUTF8                   (* Prometheus: a label value is not UTF-8 *)
| ErrMissingLabel (name : string)  (* Prometheus: a label of the vector is missing *)
| ErrMarshal (msg : string)        (* encoding/json *)
| ErrWrap (prefix : string) (e : error).  (* fmt.Errorf("prefix: %w", e) *)

Fixpoint errors_IsNotFound (e : error) : bool :=
  match e with
  | ErrNotFound => true
  | ErrWrap _ e' => errors_IsNotFound e'
  | _ => false
  end.

Inductive result (A : Type) : Type :=
| Ok (a : A)
| Err (e : error).
Arguments Ok {A} a.
Arguments Err {A} e.

(** ** prometheus.Labels and prometheus.GaugeVec *)

Abbreviation Labels := (gmap string string) (only parsing).
Abbreviation GaugeVec := (gmap (gmap string string) float) (only parsing).

(** The value stored under a label name; Go's zero value, the empty
    string, when the map has no such key. *)
Definition label (m : Labels) (k : string) : string := default EmptyString (m !! k).

(** [validateValuesInLabels] followed by the lookup of every variable
    label in [hashLabels]. *)
Definition validateLabels (names : list string) (labels : Labels) : option error :=
  if negb (size labels =? length names)%nat then Some ErrCardinality
  else if negb (forallb utf8_ValidString (map snd (map_to_list labels)))
       then Some ErrInvalidUTF8
  else match filter (fun n => labels !! n = None) names with
       | n :: _ => Some (ErrMissingLabel n)
       | [] => None
       end.

(** [GaugeVec.GetMetricWith]: the series of [labels], created with value
    0 when the vector has none. *)
Definition GetMetricWith (names : list string) (labels : Labels) (vec : GaugeVec)
  : result GaugeVec :=
  match validateLabels names labels with
  | Some e => Err e
  | None => Ok (match vec !! labels with
                | Some _ => vec
                | None => <[labels := 0%float]> vec
                end)
  end.

(** [Gauge.Set] on the series that [GetMetricWith] returned. *)
Definition Gauge_Set (labels : Labels) (v : float) (vec : GaugeVec) : GaugeVec :=
  <[labels := v]> vec.

(** [GaugeVec.Delete]: removes the series of [labels]; nothing happens
    when the labels do not fit the vector or no such series exists. *)
Definition GaugeVec_Delete (names : list string) (labels : Labels) (vec : GaugeVec)
  : GaugeVec :=
  match validateLabels names labels with
  | Some _ => vec
  | None => delete labels vec
  end.

(** ** Kubernetes objects *)

Record NamespacedName := { Namespace : string; Name : string }.

Global Instance NamespacedName_eq_dec : EqDecision NamespacedName.
Proof. solve_decision. Defined.

Global Instance NamespacedName_countable : Countable NamespacedName.
Proof.
  refine (inj_countable' (fun k => (Namespace k, Name k))
                         (fun p => {| Namespace := p.1; Name := p.2 |}) _).
  by intros [].
Defined.

Record OwnerReference := {
  APIVersion : string;
  Kind : string;
  OwnerName : string
}.

(** [metav1.ObjectMeta]: the fields read by the controllers.  A nil map
    and an empty map are both the empty [gmap]. *)
Record ObjectMeta := {
  MetaName : string;
  MetaNamespace : string;
  MetaLabels : Labels;
  OwnerReferences : list OwnerReference
}.

Record NodeStatus := {
  Capacity : ResourceList;
  Allocatable : ResourceList;
  NodePhase : string
}.

Record Node := {
  NodeMeta : ObjectMeta;
  Status : NodeStatus
}.

Record ResourceRequirements := {
  Limits : ResourceList;
  Requests : ResourceList
}.

Record Container := { Resources : ResourceRequirements }.

(** [Overhead] is [None] for Go's nil map. *)
Record PodSpec := {
  NodeName : string;
  NodeSelector : Labels;
  Containers : list Container;
  Overhead : option ResourceList
}.

Record Pod := {
  PodMeta : ObjectMeta;
  Spec : PodSpec;
  PodPhase : string;
  DaemonOwned : bool
}.

Definition ResourceCPU : string := "cpu".
Definition LabelTopologyZone : string := "topology.kubernetes.io/zone".
Definition LabelArchStable : string := "kubernetes.io/arch".
Definition LabelInstanceTypeStable : string := "node.kubernetes.io/instance-type".

(** Modelled from the spec: [podutil.IsTerminal] is not among the
    sources; a pod is terminal in the phases succeeded and failed. *)
Definition IsTerminal (pod : Pod) : bool :=
  String.eqb (PodPhase pod) "Succeeded" || String.eqb (PodPhase pod) "Failed".

(** Modelled from the spec: [podutil.IsOwnedByDaemonSet] is not among the
    sources; the pod snapshot carries an owning-daemon flag, whether its
    controlling owner is a daemon-style controller. *)
Definition IsOwnedByDaemonSet (pod : Pod) : bool := DaemonOwned pod.

(** [client.Client]: [Get] of a node, [Get] of a pod, and [List] of the
    pods whose [spec.nodeName] is the given name. *)
Record Client := {
  GetNode : NamespacedName -> result Node;
  GetPod : NamespacedName -> result Pod;
  ListPods : string -> result (list Pod)
}.

(** * Package node: pkg/controllers/metrics/node/controller.go *)

Module Node.

Definition resourceType : string := "resource_type".
Definition nodeName : string := "node_name".
Definition nodeProvisioner : string := "provisioner".
Definition nodeZone : string := "zone".
Definition nodeArchitecture : string := "arch".
Definition nodeCapacityType : string := "capacity_type".
Definition nodeInstanceType : string := "instance_type".
Definition nodePhase : string := "phase".

Definition labelNames : list string :=
  [ resourceType; nodeName; nodeProvisioner; nodeZone; nodeArchitecture;
    nodeCapacityType; nodeInstanceType; nodePhase ].

(** The six gauge vectors of the package, by name, and their contents. *)
Inductive gauge : Type :=
| allocatableGaugeVec
| podRequestsGaugeVec
| podLimitsGaugeVec
| daemonRequestsGaugeVec
| daemonLimitsGaugeVec
| overheadGaugeVec.

Global Instance gauge_eq_dec : EqDecision gauge.
Proof. solve_decision. Defined.

Record Registry := {
  allocatable : GaugeVec;
  podRequests : GaugeVec;
  podLimits : GaugeVec;
  daemonRequests : GaugeVec;
  daemonLimits : GaugeVec;
  overhead : GaugeVec
}.

Definition vec (g : gauge) (r : Registry) : GaugeVec :=
  match g with
  | allocatableGaugeVec => allocatable r
  | podRequestsGaugeVec => podRequests r
  | podLimitsGaugeVec => podLimits r
  | daemonRequestsGaugeVec => daemonRequests r
  | daemonLimitsGaugeVec => daemonLimits r
  | overheadGaugeVec => overhead r
  end.

Definition setVec (g : gauge) (v : GaugeVec) (r : Registry) : Registry :=
  {| allocatable := if decide (g = allocatableGaugeVec) then v else allocatable r;
     podRequests := if decide (g = podRequestsGaugeVec) then v else podRequests r;
     podLimits := if decide (g = podLimitsGaugeVec) then v else podLimits r;
     daemonRequests := if decide (g = daemonRequestsGaugeVec) then v else daemonRequests r;
     daemonLimits := if decide (g = daemonLimitsGaugeVec) then v else daemonLimits r;
     overhead := if decide (g = overheadGaugeVec) then v else overhead r |}.

(** The controller's [LabelSliceMap] and the package's gauge vectors. *)
Record State := {
  LabelSliceMap : gmap NamespacedName (list Labels);
  Gauges : Registry
}.

(** [NewController], with the vectors as [init] registered them. *)
Definition NewController : State :=
  {| LabelSliceMap := ∅;
     Gauges := {| allocatable := ∅; podRequests := ∅; podLimits := ∅;
                  daemonRequests := ∅; daemonLimits := ∅; overhead := ∅ |} |}.

(** The gauge vectors in the order of the map literal of [updateGauges]. *)
Definition gaugeVecs : list gauge :=
  [ overheadGaugeVec; podRequestsGaugeVec; podLimitsGaugeVec;
    daemonRequestsGaugeVec; daemonLimitsGaugeVec; allocatableGaugeVec ].

Section controller.

(** [v1alpha5.ProvisionerNameLabelKey] and [v1alpha5.LabelCapacityType]:
    constants of the repository declared outside these sources. *)
Variable ProvisionerNameLabelKey : string.
Variable LabelCapacityType : string.

(** The order in which a [range] loop visits a resource list, and the
    order in which [updateGauges] visits its six vectors. *)
Variable rangeOrder : ResourceList -> list (string * Quantity).
Variable gaugeOrder : list gauge.

(** The body of the loop of [deleteGauges]. *)
Definition deleteLabels (labels : Labels) (r : Registry) : Registry :=
  {| allocatable := GaugeVec_Delete labelNames labels (allocatable r);
     podRequests := GaugeVec_Delete labelNames labels (podRequests r);
     podLimits := GaugeVec_Delete labelNames labels (podLimits r);
     daemonRequests := GaugeVec_Delete labelNames labels (daemonRequests r);
     daemonLimits := GaugeVec_Delete labelNames labels (daemonLimits r);
     overhead := GaugeVec_Delete labelNames labels (overhead r) |}.

Definition deleteGauges (nodeNamespacedName : NamespacedName) (c : State) : State :=
  {| LabelSliceMap := <[nodeNamespacedName := []]> (LabelSliceMap c);
     Gauges := match LabelSliceMap c !! nodeNamespacedName with
               | Some labelSlice =>
                 foldl (fun r labels => deleteLabels labels r) (Gauges c) labelSlice
               | None => Gauges c
               end |}.

Definition generateLabels (node : Node) (resourceTypeName : string) : Labels :=
  let labels := MetaLabels (NodeMeta node) in
  let metricLabels : Labels := ∅ in
  let metricLabels := <[resourceType := resourceTypeName]> metricLabels in
  let metricLabels := <[nodeName := MetaName (NodeMeta node)]> metricLabels in
  let metricLabels :=
    match labels !! ProvisionerNameLabelKey with
    | None => <[nodeProvisioner := "N/A"]> metricLabels
    | Some provisionerName => <[nodeProvisioner := provisionerName]> metricLabels
    end in
  let metricLabels := <[nodeZone := label labels LabelTopologyZone]> metricLabels in
  let metricLabels := <[nodeArchitecture := label labels LabelArchStable]> metricLabels in
  let metricLabels :=
    match labels !! LabelCapacityType with
    | None => <[nodeCapacityType := "N/A"]> metricLabels
    | Some capacityType => <[nodeCapacityType := capacityType]> metricLabels
    end in
  let metricLabels :=
    <[nodeInstanceType := label labels LabelInstanceTypeStable]> metricLabels in
  <[nodePhase := NodePhase (Status node)]> metricLabels.

(** The body of the loop of [addResourceQuantity]. *)
Definition addQuantity (target : ResourceList) (entry : string * Quantity) : ResourceList :=
  let '(resourceName, quantity) := entry in
  match target !! resourceName with
  | None => <[resourceName := Quantity_DeepCopy quantity]> target
  | Some value => <[resourceName := Quantity_Add value quantity]> target
  end.

(** [addResourceQuantity valueResourceList targetResourceList]; the
    result is the target list after the call. *)
Definition addResourceQuantity (valueResourceList targetResourceList : ResourceList)
  : ResourceList :=
  foldl addQuantity targetResourceList (rangeOrder valueResourceList).

(** The body of the loop that adds a pod's overhead to the limits. *)
Definition addOverheadToLimit (limits : ResourceList) (entry : string * Quantity)
  : ResourceList :=
  let '(resourceName, quantity) := entry in
  match limits !! resourceName with
  | Some value =>
    if negb (Quantity_IsZero value)
    then <[resourceName := Quantity_Add value quantity]> limits
    else limits
  | None => limits
  end.

(** The body of the loop over the containers of a pod. *)
Definition addContainer (acc : ResourceList * ResourceList) (container : Container)
  : ResourceList * ResourceList :=
  ( addResourceQuantity (Requests (Resources container)) acc.1,
    addResourceQuantity (Limits (Resources container)) acc.2 ).

(** The body of the loop of [getPodsTotalRequestsAndLimits] over the
    pods; [acc] is the pair [(reqs, limits)]. *)
Definition addPod (acc : ResourceList * ResourceList) (pod : Pod)
  : ResourceList * ResourceList :=
  if IsTerminal pod then acc
  else
    let acc := foldl addContainer acc (Containers (Spec pod)) in
    match Overhead (Spec pod) with
    | Some podOverhead =>
      ( addResourceQuantity podOverhead acc.1,
        foldl addOverheadToLimit acc.2 (rangeOrder podOverhead) )
    | None => acc
    end.

Definition getPodsTotalRequestsAndLimits (pods : list Pod)
  : ResourceList * ResourceList :=
  foldl addPod (∅, ∅) pods.

Definition getSystemOverhead (node : Node) : ResourceList :=
  let systemOverheads : ResourceList := ∅ in
  if (0 <? size (Allocatable (Status node)))%nat
  then foldl (fun systemOverheads '(resourceName, quantity) =>
                let overhead := default 0 (Capacity (Status node) !! resourceName) in
                <[resourceName := Quantity_Sub overhead quantity]> systemOverheads)
             systemOverheads (rangeOrder (Allocatable (Status node)))
  else systemOverheads.

(** The resource type that [insertGaugeValues] derives from a resource
    name. *)
Definition resourceTypeName (resourceName : string) : string :=
  strings_ReplaceAll (strings_ToLower resourceName) "-" "_".

(** The value that [insertGaugeValues] sets for a resource. *)
Definition gaugeValue (resourceName : string) (quantity : Quantity) : float :=
  if String.eqb resourceName ResourceCPU
  then (float64 (Quantity_MilliValue quantity) / float64 1000)%float
  else float64 (Quantity_Value quantity).

(** The body of the loop of [insertGaugeValues]: the labels are appended
    to the node's slice before the series is looked up. *)
Definition insertGaugeValue (node : Node) (gaugeVec : gauge) (c : State)
    (entry : string * Quantity) : option error * State :=
  let '(resourceName, quantity) := entry in
  let labels := generateLabels node (resourceTypeName resourceName) in
  let nodeNamespacedName :=
    {| Namespace := ""; Name := MetaName (NodeMeta node) |} in
  let slices :=
    <[nodeNamespacedName :=
        default [] (LabelSliceMap c !! nodeNamespacedName) ++ [labels]]>
      (LabelSliceMap c) in
  match GetMetricWith labelNames labels (vec gaugeVec (Gauges c)) with
  | Err err =>
    (Some (ErrWrap "generate new gauge" err),
     {| LabelSliceMap := slices; Gauges := Gauges c |})
  | Ok series =>
    (None,
     {| LabelSliceMap := slices;
        Gauges := setVec gaugeVec
                    (Gauge_Set labels (gaugeValue resourceName quantity) series)
                    (Gauges c) |})
  end.

Fixpoint insertEntries (node : Node) (gaugeVec : gauge)
    (entries : list (string * Quantity)) (c : State) : option error * State :=
  match entries with
  | [] => (None, c)
  | entry :: rest =>
    match insertGaugeValue node gaugeVec c entry with
    | (Some err, c') => (Some err, c')
    | (None, c') => insertEntries node gaugeVec rest c'
    end
  end.

Definition insertGaugeValues (resourceList : ResourceList) (node : Node)
    (gaugeVec : gauge) (c : State) : option error * State :=
  insertEntries node gaugeVec (rangeOrder resourceList) c.

(** [updateGauges]; an error of [insertGaugeValues] is logged and the
    loop goes on to the next vector. *)
Definition updateGauges (kubeClient : Client) (node : Node) (c : State)
  : option error * State :=
  match ListPods kubeClient (MetaName (NodeMeta node)) with
  | Err err =>
    (Some (ErrWrap ("listing pods on node " ++ MetaName (NodeMeta node)) err), c)
  | Ok items =>
    let daemonSetPods := filter (fun p => IsOwnedByDaemonSet p = true) items in
    let pods := filter (fun p => IsOwnedByDaemonSet p <> true) items in
    let '(podRequest, podLimits) := getPodsTotalRequestsAndLimits pods in
    let '(daemonRequest, daemonLimits) := getPodsTotalRequestsAndLimits daemonSetPods in
    let systemOverhead := getSystemOverhead node in
    let allocatable :=
      if (0 <? size (Allocatable (Status node)))%nat
      then Allocatable (Status node)
      else Capacity (Status node) in
    let resourceList (gaugeVec : gauge) : ResourceList :=
      match gaugeVec with
      | overheadGaugeVec => systemOverhead
      | podRequestsGaugeVec => podRequest
      | podLimitsGaugeVec => podLimits
      | daemonRequestsGaugeVec => daemonRequest
      | daemonLimitsGaugeVec => daemonLimits
      | allocatableGaugeVec => allocatable
      end in
    (None,
     foldl (fun c gaugeVec => (insertGaugeValues (resourceList gaugeVec) node gaugeVec c).2)
           c gaugeOrder)
  end.

Definition Reconcile (kubeClient : Client) (req : NamespacedName) (c : State)
  : option error * State :=
  let c := deleteGauges req c in
  match GetNode kubeClient req with
  | Err err =>
    if errors_IsNotFound err then (None, c) else (Some err, c)
  | Ok node =>
    match updateGauges kubeClient node c with
    | (Some err, c') => (Some err, c')
    | (None, c') => (None, c')
    end
  end.

End controller.
End Node.

(** * Package pod: the pod metrics controller *)

Module Pod.

Definition podName : string := "name".
Definition podNameSpace : string := "namespace".
Definition ownerSelfLink : string := "owner".
Definition podHostName : string := "node".
Definition podProvisioner : string := "provisioner".
Definition podHostZone : string := "zone".
Definition podHostArchitecture : string := "arch".
Definition podHostCapacityType : string := "capacity_type".
Definition podHostInstanceType : string := "instance_type".
Definition podPhase : string := "phase".
Definition podLabels : string := "pod_labels".

Definition getLabelNames : list string :=
  [ podName; podNameSpace; ownerSelfLink; podHostName; podProvisioner;
    podHostZone; podHostArchitecture; podHostCapacityType;
    podHostInstanceType; podPhase; podLabels ].

(** The controller's [LabelsMap] and the package's [podGaugeVec]. *)
Record State := {
  LabelsMap : gmap NamespacedName Labels;
  podGaugeVec : GaugeVec
}.

Definition NewController : State := {| LabelsMap := ∅; podGaugeVec := ∅ |}.

Section controller.

Variable ProvisionerNameLabelKey : string.
Variable LabelCapacityType : string.

(** [json.Marshal] on the pod's label map, as a string. *)
Variable json_Marshal : Labels -> result string.

(** [fmt.Sprintf "/apis/%s/namespaces/%s/%ss/%s"]. *)
Definition selfLink (apiVersion namespace kind name : string) : string :=
  "/apis/" ++ apiVersion ++ "/namespaces/" ++ namespace ++ "/" ++ kind ++ "s/" ++ name.

Definition generateLabels (kubeClient : Client) (pod : Pod) : result Labels :=
  let metricLabels : Labels := ∅ in
  let metricLabels := <[podName := MetaName (PodMeta pod)]> metricLabels in
  let metricLabels := <[podNameSpace := MetaNamespace (PodMeta pod)]> metricLabels in
  let selflink :=
    match OwnerReferences (PodMeta pod) with
    | ownerreference :: _ =>
      selfLink (APIVersion ownerreference) (MetaNamespace (PodMeta pod))
               (strings_ToLower (Kind ownerreference)) (OwnerName ownerreference)
    | [] => EmptyString
    end in
  let metricLabels := <[ownerSelfLink := selflink]> metricLabels in
  let metricLabels := <[podHostName := NodeName (Spec pod)]> metricLabels in
  let metricLabels := <[podPhase := PodPhase pod]> metricLabels in
  let metricLabels :=
    match GetNode kubeClient {| Namespace := ""; Name := NodeName (Spec pod) |} with
    | Err _ =>
      let metricLabels := <[podHostZone := EmptyString]> metricLabels in
      let metricLabels := <[podHostArchitecture := EmptyString]> metricLabels in
      let metricLabels := <[podHostCapacityType := EmptyString]> metricLabels in
      let metricLabels := <[podHostInstanceType := EmptyString]> metricLabels in
      match NodeSelector (Spec pod) !! ProvisionerNameLabelKey with
      | Some name => <[podProvisioner := name]> metricLabels
      | None => <[podProvisioner := EmptyString]> metricLabels
      end
    | Ok node =>
      let labels := MetaLabels (NodeMeta node) in
      let metricLabels := <[podHostZone := label labels LabelTopologyZone]> metricLabels in
      let metricLabels :=
        <[podHostArchitecture := label labels LabelArchStable]> metricLabels in
      let metricLabels :=
        <[podHostCapacityType := label labels LabelCapacityType]> metricLabels in
      let metricLabels :=
        <[podHostInstanceType := label labels LabelInstanceTypeStable]> metricLabels in
      <[podProvisioner := label labels ProvisionerNameLabelKey]> metricLabels
    end in
  match json_Marshal (MetaLabels (PodMeta pod)) with
  | Err err => Err (ErrWrap "marshal pod labels" err)
  | Ok labels => Ok (<[podLabels := labels]> metricLabels)
  end.

(** [podGaugeVec.Delete] of the labels recorded for [req], if any. *)
Definition deleteGauge (req : NamespacedName) (c : State) : State :=
  match LabelsMap c !! req with
  | Some labels =>
    {| LabelsMap := LabelsMap c;
       podGaugeVec := GaugeVec_Delete getLabelNames labels (podGaugeVec c) |}
  | None => c
  end.

Definition Reconcile (kubeClient : Client) (req : NamespacedName) (c : State)
  : option error * State :=
  match GetPod kubeClient req with
  | Err err =>
    if errors_IsNotFound err then (None, deleteGauge req c) else (Some err, c)
  | Ok pod =>
    let c := deleteGauge req c in
    match generateLabels kubeClient pod with
    | Err err => (Some err, c)
    | Ok newlabels =>
      match GetMetricWith getLabelNames newlabels (podGaugeVec c) with
      | Err err => (Some err, c)
      | Ok series =>
        (None,
         {| LabelsMap := <[req := newlabels]> (LabelsMap c);
            podGaugeVec := Gauge_Set newlabels (float64 1) series |})
      end
    end
  end.

End controller.
End Pod.

(** * Package v1alpha1: validation of the AWS provider *)

Module AWSProvider.

(** The fields of [AWS] that the validation reads; [None] is a nil map. *)
Record AWS := {
  SubnetSelector : option Labels;
  SecurityGroupSelector : option Labels;
  Tags : Labels
}.

(** An error of knative's [apis] package, by the call that made it. *)
Inductive FieldError : Type :=
| ErrMissingField (fieldPath : string)
| ErrInvalidValue (value fieldPath : string)
| ViaField (prefix : string) (e : FieldError).

(** A [*apis.FieldError] is the list of the errors that [Also] has
    collected; nil is the empty list. *)
Abbreviation FieldErrors := (list FieldError) (only parsing).

(** The two-character string of two double quotes. *)
Definition quotes : string :=
  String (ascii_of_nat 34) (String (ascii_of_nat 34) EmptyString).

Section provider_validation.

(** The order in which a [range] loop visits a map of strings. *)
Variable rangeLabels : Labels -> list (string * string).

Definition validateLaunchTemplate (a : AWS) : FieldErrors := [].

Definition validateSubnets (a : AWS) : FieldErrors :=
  let errs : FieldErrors :=
    match SubnetSelector a with
    | None => [ErrMissingField "subnetSelector"]
    | Some _ => []
    end in
  foldl (fun errs '(key, value) =>
           if decide (key = EmptyString \/ value = EmptyString)
           then errs ++ [ErrInvalidValue quotes ("subnetSelector['" ++ key ++ "']")%string]
           else errs)
        errs (rangeLabels (default ∅ (SubnetSelector a))).

Definition validateSecurityGroups (a : AWS) : FieldErrors :=
  let errs : FieldErrors :=
    match SecurityGroupSelector a with
    | None => [ErrMissingField "securityGroupSelector"]
    | Some _ => []
    end in
  foldl (fun errs '(key, value) =>
           if decide (key = EmptyString \/ value = EmptyString)
           then errs ++ [ErrInvalidValue quotes ("securityGroupSelector['" ++ key ++ "']")%string]
           else errs)
        errs (rangeLabels (default ∅ (SecurityGroupSelector a))).

Definition validateTags (a : AWS) : FieldErrors :=
  foldl (fun errs '(tagKey, tagValue) =>
           if decide (tagKey = EmptyString)
           then errs ++
                [ErrInvalidValue
                   ("the tag with key : '' and value : '" ++ tagValue ++
                    "' is invalid because empty tag keys aren't supported")%string
                   "tags"]
           else errs)
        [] (rangeLabels (Tags a)).

Definition validate (a : AWS) : FieldErrors :=
  validateLaunchTemplate a ++ validateSubnets a ++ validateSecurityGroups a
    ++ validateTags a.

Definition Validate (a : AWS) : FieldErrors :=
  map (ViaField "provider") (validate a).

End provider_validation.
End AWSProvider.

(** * Package options *)

Module Options.

Record Options := {
  ClusterName : string;
  ClusterEndpoint : string;
  MetricsPort : Z;
  HealthProbePort : Z;
  WebhookPort : Z;
  KubeClientQPS : Z;
  KubeClientBurst : Z;
  AWSNodeNameConvention : string;
  AwsDefaultInstanceProfile : string
}.

(** What [validateEndpoint] reads of a parsed [url.URL]. *)
Record URL := { Scheme : string; Hostname : string }.

(** [URL.IsAbs]: the scheme is not empty. *)
Definition IsAbs (u : URL) : bool := negb (String.eqb (Scheme u) "").

(** [multierr.Append]: a nil error adds nothing. *)
Definition multierr_Append (err : list string) (e : option string) : list string :=
  match e with
  | Some message => err ++ [message]
  | None => err
  end.

Section options_validation.

(** [url.Parse]. *)
Variable url_Parse : string -> result URL.

Definition validateEndpoint (o : Options) : option string :=
  let message : string :=
    (String (ascii_of_nat 34) (ClusterEndpoint o)
      ++ String (ascii_of_nat 34) " not a valid CLUSTER_ENDPOINT URL")%string in
  match url_Parse (ClusterEndpoint o) with
  | Err _ => Some message
  | Ok endpoint =>
    if negb (IsAbs endpoint) || String.eqb (Hostname endpoint) ""
    then Some message
    else None
  end.

Definition Validate (o : Options) : list string :=
  let err := multierr_Append [] (validateEndpoint o) in
  let err :=
    if String.eqb (ClusterName o) ""
    then multierr_Append err (Some "CLUSTER_NAME is required"%string)
    else err in
  let err :=
    if negb (String.eqb (AWSNodeNameConvention o) "ip-name")
       && negb (String.eqb (AWSNodeNameConvention o) "resource-name")
    then multierr_Append err
           (Some "aws-node-name-convention may only be either ip-name or resource-name"%string)
    else err in
  err.

End options_validation.
End Options.

(** * Package node: the liveness subreconciler *)

Module Liveness.

(** A [time.Duration] is a signed 64-bit count of nanoseconds; an instant
    is counted in nanoseconds too. *)
Definition minDuration : Z := - 2 ^ 63.
Definition maxDuration : Z := 2 ^ 63 - 1.

(** The value an [int64] keeps of a result. *)
Definition wrap64 (z : Z) : Z := (z + 2 ^ 63) mod 2 ^ 64 - 2 ^ 63.

(** [Time.Sub] of two wall-clock instants: the difference, or the least
    or greatest duration when it is out of range. *)
Definition time_Sub (t u : Z) : Z := Z.max minDuration (Z.min maxDuration (t - u)).

Definition Minute : Z := 60 * 1000000000.
Definition LivenessTimeout : Z := 15 * Minute.

Record NodeCondition := { ConditionType : string; Reason : string }.

(** The fields of a node that the subreconciler reads. *)
Record LiveNode := {
  CreationTimestamp : Z;
  Conditions : list NodeCondition
}.

Definition NodeReady : string := "Ready".

(** What a call of [Reconcile] leaves: the requeue delay of the result,
    the error, and whether [kubeClient.Delete] was called on the node. *)
Record Outcome := {
  RequeueAfter : Z;
  Error : option error;
  Deleted : bool
}.

Section liveness.

(** [node.GetCondition], of the repository's utils, outside these
    sources. *)
Variable GetCondition : list NodeCondition -> string -> NodeCondition.

(** [now] is [injectabletime.Now()], [delete] is [kubeClient.Delete]. *)
Definition Reconcile (now : Z) (delete : LiveNode -> option error) (n : LiveNode)
  : Outcome :=
  let timeSinceCreation := time_Sub now (CreationTimestamp n) in
  if timeSinceCreation <? LivenessTimeout
  then {| RequeueAfter := wrap64 (LivenessTimeout - timeSinceCreation); Error := None;
          Deleted := false |}
  else
    let condition := GetCondition (Conditions n) NodeReady in
    if negb (String.eqb (Reason condition) "")
       && negb (String.eqb (Reason condition) "NodeStatusNeverUpdated")
    then {| RequeueAfter := 0; Error := None; Deleted := false |}
    else
      match delete n with
      | Some err =>
        {| RequeueAfter := 0; Error := Some (ErrWrap "deleting node" err); Deleted := true |}
      | None => {| RequeueAfter := 0; Error := None; Deleted := true |}
      end.

End liveness.
End Liveness.

(** * Package selection: volume topology *)

Module Selection.

(** A [v1.NodeSelectorRequirement].  [v1alpha5.Requirements], of the
    repository's API package and outside these sources, is used here as a
    slice of them: a list. *)
Record NodeSelectorRequirement := {
  Key : string;
  Operator : string;
  Values : list string
}.

Definition NodeSelectorOpIn : string := "In".

Record NodeSelectorTerm := {
  MatchExpressions : list NodeSelectorRequirement;
  MatchFields : list NodeSelectorRequirement
}.

Record NodeSelector := { NodeSelectorTerms : list NodeSelectorTerm }.

Record NodeAffinity := {
  RequiredDuringSchedulingIgnoredDuringExecution : option NodeSelector;
  PreferredDuringSchedulingIgnoredDuringExecution : list (Z * NodeSelectorTerm)
}.

(** Of [v1.Affinity], the node affinity. *)
Record Affinity := { PodNodeAffinity : option NodeAffinity }.

(** A volume: the name of its persistent volume claim, if it has one. *)
Record Volume := { PersistentVolumeClaim : option string }.

(** The fields of a pod that [Inject] reads or writes. *)
Record Pod := {
  PodNamespace : string;
  Volumes : list Volume;
  PodAffinity : option Affinity
}.

(** [StorageClassName] is [None] for a nil pointer. *)
Record PersistentVolumeClaim_ := {
  VolumeName : string;
  StorageClassName : option string
}.

Record TopologySelectorLabelRequirement := {
  TopologyKey : string;
  TopologyValues : list string
}.

Record TopologySelectorTerm := {
  MatchLabelExpressions : list TopologySelectorLabelRequirement
}.

Record StorageClass := { AllowedTopologies : list TopologySelectorTerm }.

(** A persistent volume: its [Spec.NodeAffinity], and in it [Required]. *)
Record PersistentVolume := { VolumeNodeAffinity : option (option NodeSelector) }.

Record VolumeClient := {
  GetClaim : NamespacedName -> result PersistentVolumeClaim_;
  GetVolume : NamespacedName -> result PersistentVolume;
  GetStorageClass : NamespacedName -> result StorageClass
}.

(** [ptr.StringValue]. *)
Definition StringValue (s : option string) : string := default EmptyString s.

(** [%q] of a name that needs no escape. *)
Definition quoted (s : string) : string :=
  (String (ascii_of_nat 34) s ++ String (ascii_of_nat 34) EmptyString)%string.

(** What [Inject] does: it returns, with an error or nil and the pod as
    it then is, or it panics. *)
Inductive Outcome : Type :=
| Returns (err : option error) (pod : Pod)
| Panics.

Definition getStorageClassRequirements (kubeClient : VolumeClient)
    (pvc : PersistentVolumeClaim_) : result (list NodeSelectorRequirement) :=
  match GetStorageClass kubeClient
          {| Namespace := ""; Name := StringValue (StorageClassName pvc) |} with
  | Err err =>
    Err (ErrWrap ("getting storage class " ++ quoted (StringValue (StorageClassName pvc)))%string err)
  | Ok storageClass =>
    Ok match AllowedTopologies storageClass with
       | term :: _ =>
         foldl (fun requirements requirement =>
                  requirements ++
                  [ {| Key := TopologyKey requirement; Operator := NodeSelectorOpIn;
                       Values := TopologyValues requirement |} ])
               [] (MatchLabelExpressions term)
       | [] => []
       end
  end.

Definition getPersistentVolumeRequirements (kubeClient : VolumeClient) (pod : Pod)
    (pvc : PersistentVolumeClaim_) : result (list NodeSelectorRequirement) :=
  match GetVolume kubeClient
          {| Namespace := PodNamespace pod; Name := VolumeName pvc |} with
  | Err err => Err (ErrWrap ("getting persistent volume " ++ quoted (VolumeName pvc))%string err)
  | Ok pv =>
    match VolumeNodeAffinity pv with
    | None => Ok []
    | Some None => Ok []
    | Some (Some required) =>
      Ok match NodeSelectorTerms required with
         | term :: _ => [] ++ MatchExpressions term
         | [] => []
         end
    end
  end.

Definition getRequirements (kubeClient : VolumeClient) (pod : Pod) (volume : Volume)
  : result (list NodeSelectorRequirement) :=
  match PersistentVolumeClaim volume with
  | None => Ok []
  | Some claimName =>
    match GetClaim kubeClient {| Namespace := PodNamespace pod; Name := claimName |} with
    | Err err => Err (ErrWrap ("getting persistent volume claim " ++ claimName)%string err)
    | Ok pvc =>
      if negb (String.eqb (VolumeName pvc) "") then
        match getPersistentVolumeRequirements kubeClient pod pvc with
        | Err err => Err (ErrWrap "getting existing requirements" err)
        | Ok requirements => Ok requirements
        end
      else if negb (String.eqb (StringValue (StorageClassName pvc)) "") then
        match getStorageClassRequirements kubeClient pvc with
        | Err err => Err err
        | Ok requirements => Ok requirements
        end
      else Ok []
    end
  end.

(** The first loop of [Inject]. *)
Fixpoint collectRequirements (kubeClient : VolumeClient) (pod : Pod)
    (volumes : list Volume) (requirements : list NodeSelectorRequirement)
  : result (list NodeSelectorRequirement) :=
  match volumes with
  | [] => Ok requirements
  | volume :: rest =>
    match getRequirements kubeClient pod volume with
    | Err err => Err err
    | Ok req => collectRequirements kubeClient pod rest (requirements ++ req)
    end
  end.

Definition Inject (kubeClient : VolumeClient) (pod : Pod) : Outcome :=
  match collectRequirements kubeClient pod (Volumes pod) [] with
  | Err err => Returns (Some err) pod
  | Ok requirements =>
    if (length requirements =? 0)%nat then Returns None pod
    else
      let affinity := default {| PodNodeAffinity := None |} (PodAffinity pod) in
      let nodeAffinity :=
        default {| RequiredDuringSchedulingIgnoredDuringExecution := None;
                   PreferredDuringSchedulingIgnoredDuringExecution := [] |}
                (PodNodeAffinity affinity) in
      let required :=
        default {| NodeSelectorTerms := [] |}
                (RequiredDuringSchedulingIgnoredDuringExecution nodeAffinity) in
      match NodeSelectorTerms required with
      | [] => Panics
      | term :: terms =>
        let term :=
          {| MatchExpressions :=
               foldl (fun expressions requirement => expressions ++ [requirement])
                     (MatchExpressions term) requirements;
             MatchFields := MatchFields term |} in
        Returns None
          {| PodNamespace := PodNamespace pod;
             Volumes := Volumes pod;
             PodAffinity :=
               Some {| PodNodeAffinity :=
                 Some {| RequiredDuringSchedulingIgnoredDuringExecution :=
                           Some {| NodeSelectorTerms := term :: terms |};
                         PreferredDuringSchedulingIgnoredDuringExecution :=
                           PreferredDuringSchedulingIgnoredDuringExecution nodeAffinity |} |} |}
      end
  end.

End Selection.

(** * Vocabulary of the statements *)

(** An enumeration of the entries of every resource list: what a [range]
    loop may do. *)
Definition rangeOrders (rangeOrder : ResourceList -> list (string * Quantity)) : Prop :=
  forall m, rangeOrder m ≡ₚ map_to_list m.

(** The sum of two optional amounts, an absent one counting as nothing. *)
Definition oplus (a b : option Z) : option Z :=
  union_with (fun x y => Some (x + y)) a b.

Definition sumOpt (l : list (option Z)) : option Z := foldr oplus None l.

(** What the overhead loop does to one entry of the limits. *)
Definition limitWithOverhead (limit overhead : option Z) : option Z :=
  match limit, overhead with
  | Some value, Some quantity =>
    if Quantity_IsZero value then Some value else Some (value + quantity)
  | _, _ => limit
  end.

(** The sum of one resource over the containers of a pod. *)
Definition containerSum (get : Container -> ResourceList)
    (containers : list Container) (name : string) : option Z :=
  foldr (fun container o => oplus (get container !! name) o) None containers.

Definition containerRequests (pod : Pod) : string -> option Z :=
  containerSum (fun c => Requests (Resources c)) (Containers (Spec pod)).

Definition containerLimits (pod : Pod) : string -> option Z :=
  containerSum (fun c => Limits (Resources c)) (Containers (Spec pod)).

(** The overhead a pod declares for a resource, if any. *)
Definition overheadOf (pod : Pod) (name : string) : option Z :=
  match Overhead (Spec pod) with
  | Some podOverhead => podOverhead !! name
  | None => None
  end.

(** What a pod adds to the requests of a resource. *)
Definition podRequest (pod : Pod) (name : string) : option Z :=
  if IsTerminal pod then None
  else oplus (containerRequests pod name) (overheadOf pod name).

(** The limit of a resource after a pod, from the limit before it. *)
Definition podLimit (pod : Pod) (name : string) (limit : option Z) : option Z :=
  if IsTerminal pod then limit
  else limitWithOverhead (oplus limit (containerLimits pod name)) (overheadOf pod name).

(** Without overhead, a pod adds the limits of its containers. *)
Definition podLimitPlain (pod : Pod) (name : string) : option Z :=
  if IsTerminal pod then None else containerLimits pod name.

(** The key under which [insertGaugeValues] records the labels of a node,
    and under which the node is requested. *)
Definition nodeKey (name : string) : NamespacedName :=
  {| Namespace := ""; Name := name |}.

(** The labels are recorded in the slice of the node they name. *)
Definition tracked (c : Node.State) (labels : Labels) : Prop :=
  exists slice,
    Node.LabelSliceMap c !! nodeKey (label labels Node.nodeName) = Some slice /\
    labels ∈ slice.

(** Every series of the six vectors has labels that fit the vectors and
    is recorded in [LabelSliceMap] under the node it names. *)
Definition Tracking (c : Node.State) : Prop :=
  forall g labels x,
    Node.vec g (Node.Gauges c) !! labels = Some x ->
    validateLabels Node.labelNames labels = None /\ tracked c labels.

(** The states of the node controller: [NewController], and the state
    after any reconciliation, with any client and any iteration order. *)
Inductive reachable (prov cap : string) : Node.State -> Prop :=
| reachable_NewController : reachable prov cap Node.NewController
| reachable_Reconcile rangeOrder gaugeOrder kubeClient req c :
    rangeOrders rangeOrder ->
    gaugeOrder ≡ₚ Node.gaugeVecs ->
    reachable prov cap c ->
    reachable prov cap
      (Node.Reconcile prov cap rangeOrder gaugeOrder kubeClient req c).2.

(** What [insertGaugeValues] does to its vector: the series of the
    entries before the first one whose labels the vector refuses. *)
Fixpoint publishEntries (prov cap : string) (node : Node)
    (entries : list (string * Quantity)) (v : GaugeVec) : GaugeVec :=
  match entries with
  | [] => v
  | (name, q) :: rest =>
    let labels := Node.generateLabels prov cap node (Node.resourceTypeName name) in
    match GetMetricWith Node.labelNames labels v with
    | Err _ => v
    | Ok series =>
      publishEntries prov cap node rest (Gauge_Set labels (Node.gaugeValue name q) series)
    end
  end.

(** The resource list that [updateGauges] gives to a vector. *)
Definition resourceListFor (rangeOrder : ResourceList -> list (string * Quantity))
    (node : Node) (items : list Pod) (gaugeVec : Node.gauge) : ResourceList :=
  let daemonSetPods := filter (fun p => IsOwnedByDaemonSet p = true) items in
  let pods := filter (fun p => IsOwnedByDaemonSet p <> true) items in
  match gaugeVec with
  | Node.overheadGaugeVec => Node.getSystemOverhead rangeOrder node
  | Node.podRequestsGaugeVec => (Node.getPodsTotalRequestsAndLimits rangeOrder pods).1
  | Node.podLimitsGaugeVec => (Node.getPodsTotalRequestsAndLimits rangeOrder pods).2
  | Node.daemonRequestsGaugeVec =>
    (Node.getPodsTotalRequestsAndLimits rangeOrder daemonSetPods).1
  | Node.daemonLimitsGaugeVec =>
    (Node.getPodsTotalRequestsAndLimits rangeOrder daemonSetPods).2
  | Node.allocatableGaugeVec =>
    if decide (Allocatable (Status node) = ∅)
    then Capacity (Status node) else Allocatable (Status node)
  end.

(** The vector accepts the labels of every resource of the list, and no
    other resource of the list has the resource type of [name]. *)
Definition publishable (prov cap : string) (node : Node) (src : ResourceList)
    (name : string) : Prop :=
  (forall name', is_Some (src !! name') ->
     validateLabels Node.labelNames
       (Node.generateLabels prov cap node (Node.resourceTypeName name')) = None) /\
  (forall name', is_Some (src !! name') ->
     Node.resourceTypeName name' = Node.resourceTypeName name -> name' = name).

(** No quantity of the resource list is negative. *)
Definition nonNegative (resources : ResourceList) : Prop :=
  forall name q, resources !! name = Some q -> 0 <= q.

(** No limit of a container of the pod and no overhead of the pod is
    negative: the API server admits no other pod. *)
Definition nonNegativeLimits (pod : Pod) : Prop :=
  Forall (fun container => nonNegative (Limits (Resources container)))
         (Containers (Spec pod)) /\
  forall podOverhead, Overhead (Spec pod) = Some podOverhead -> nonNegative podOverhead.

(** The vector accepts the labels of every resource of the list, and no
    two resources of the list have the same resource type. *)
Definition collisionFree (prov cap : string) (node : Node) (src : ResourceList) : Prop :=
  forall name, is_Some (src !! name) -> publishable prov cap node src name.

(** ** Example inputs *)

(** The values of the two label keys in karpenter's v1alpha5 package;
    the examples run with them. *)
Definition exampleProvisionerKey : string := "karpenter.sh/provisioner-name".
Definition exampleCapacityKey : string := "karpenter.sh/capacity-type".

(** A quantity given in thousandths: [cores 3800] is 3.8. *)
Definition cores (thousandths : Z) : Quantity := thousandths * Milli.

Definition exampleMeta (namespace name : string) : ObjectMeta :=
  {| MetaName := name; MetaNamespace := namespace; MetaLabels := ∅;
     OwnerReferences := [] |}.

Definition exampleNode (name : string) (capacity allocatable : ResourceList) : Node :=
  {| NodeMeta := exampleMeta "" name;
     Status := {| Capacity := capacity; Allocatable := allocatable;
                  NodePhase := "" |} |}.

Definition examplePod (name node phase : string) (daemon : bool)
    (containers : list Container) (overhead : option ResourceList) : Pod :=
  {| PodMeta := exampleMeta "default" name;
     Spec := {| NodeName := node; NodeSelector := ∅; Containers := containers;
                Overhead := overhead |};
     PodPhase := phase;
     DaemonOwned := daemon |}.

Definition exampleContainer (requests limits : ResourceList) : Container :=
  {| Resources := {| Limits := limits; Requests := requests |} |}.

(** A cluster with one node and the pods scheduled on it. *)
Definition cluster (node : Node) (items : list Pod) : Client :=
  {| GetNode := fun key =>
       if decide (key = nodeKey (MetaName (NodeMeta node))) then Ok node
       else Err ErrNotFound;
     GetPod := fun key =>
       match filter (fun p => key = {| Namespace := MetaNamespace (PodMeta p);
                                       Name := MetaName (PodMeta p) |}) items with
       | pod :: _ => Ok pod
       | [] => Err ErrNotFound
       end;
     ListPods := fun name =>
       Ok (if decide (name = MetaName (NodeMeta node)) then items else []) |}.

(** A cluster from which every object is gone. *)
Definition emptyCluster : Client :=
  {| GetNode := fun _ => Err ErrNotFound;
     GetPod := fun _ => Err ErrNotFound;
     ListPods := fun _ => Ok [] |}.

(** An API server that does not answer. *)
Definition unavailable : Client :=
  {| GetNode := fun _ => Err (ErrAPI "timeout");
     GetPod := fun _ => Err (ErrAPI "timeout");
     ListPods := fun _ => Err (ErrAPI "timeout") |}.

(** Node n1 of the scenario: capacity cpu=4, allocatable cpu=3.8, with a
    regular pod (request cpu=1, limit cpu=2) and a daemon pod (request
    cpu=0.2). *)
Definition n1 : Node :=
  exampleNode "n1" {[ ResourceCPU := cores 4000 ]} {[ ResourceCPU := cores 3800 ]}.

Definition regularPod : Pod :=
  examplePod "web" "n1" "Running" false
    [ exampleContainer {[ ResourceCPU := cores 1000 ]} {[ ResourceCPU := cores 2000 ]} ]
    None.

Definition daemonPod : Pod :=
  examplePod "agent" "n1" "Running" true
    [ exampleContainer {[ ResourceCPU := cores 200 ]} ∅ ] None.

(** The labels of the cpu series of a node without labels of its own. *)
Definition cpuLabels (node : string) : Labels :=
  list_to_map
    [ (Node.resourceType, "cpu"); (Node.nodeName, node);
      (Node.nodeProvisioner, "N/A"); (Node.nodeZone, "");
      (Node.nodeArchitecture, ""); (Node.nodeCapacityType, "N/A");
      (Node.nodeInstanceType, ""); (Node.nodePhase, "") ]%string.

(** A node that reports more allocatable than capacity. *)
Definition overcommitted : Node :=
  exampleNode "n2" {[ ResourceCPU := cores 1000 ]} {[ ResourceCPU := cores 2000 ]}.

(** A node that reports no allocatable at all. *)
Definition bare : Node :=
  exampleNode "n3" {[ ResourceCPU := cores 4000 ]} ∅.

(** A pod with a limit and no overhead, and a pod with overhead only. *)
Definition limitedPod : Pod :=
  examplePod "a" "n1" "Running" false
    [ exampleContainer ∅ {[ ResourceCPU := cores 1000 ]} ] None.

Definition overheadPod : Pod :=
  examplePod "b" "n1" "Running" false [] (Some {[ ResourceCPU := cores 100 ]}).

(** Two pods as the API server stores them: one with a request and a
    limit of one cpu, one with a request, no limit and an overhead. *)
Definition cappedPod : Pod :=
  examplePod "capped" "n1" "Running" false
    [ exampleContainer {[ ResourceCPU := cores 1000 ]} {[ ResourceCPU := cores 1000 ]} ]
    None.

Definition sandboxedPod : Pod :=
  examplePod "sandboxed" "n1" "Running" false
    [ exampleContainer {[ ResourceCPU := cores 500 ]} ∅ ]
    (Some {[ ResourceCPU := cores 100 ]}).

(** The entries of a resource list, last key first. *)
Definition backwards (resources : ResourceList) : list (string * Quantity) :=
  reverse (map_to_list resources).

(** A pod scheduled on a node that is gone. *)
Definition orphanPod : Pod :=
  examplePod "web" "gone" "Running" false [] None.

(** The controller after it has reconciled n1 with its two pods. *)
Definition afterN1 : Node.State :=
  (Node.Reconcile exampleProvisionerKey exampleCapacityKey map_to_list Node.gaugeVecs
                  (cluster n1 [regularPod; daemonPod]) (nodeKey "n1")
                  Node.NewController).2.

(** The controller after it has reconciled n1 once more, the maps and
    the vectors visited in the reverse order. *)
Definition twiceN1 : option error * Node.State :=
  Node.Reconcile exampleProvisionerKey exampleCapacityKey backwards
                 (reverse Node.gaugeVecs) (cluster n1 [regularPod; daemonPod])
                 (nodeKey "n1") afterN1.

(** An encoder for the examples: it knows the empty label map only. *)

Definition exampleMarshal (labels : Labels) : result string :=
  if decide (labels = ∅) then Ok "{}"%string else Err (ErrMarshal "unsupported").

(** Every recorded tuple lies in the slice of the node it names. *)
Definition SliceNames (c : Node.State) : Prop :=
  forall key slice labels,
    Node.LabelSliceMap c !! key = Some slice -> labels ∈ slice ->
    key = nodeKey (label labels Node.nodeName).

(** Every series of [podGaugeVec] has labels that fit the vector and that
    are recorded for some pod. *)
Definition PodTracking (c : Pod.State) : Prop :=
  forall labels x,
    Pod.podGaugeVec c !! labels = Some x ->
    validateLabels Pod.getLabelNames labels = None /\
    exists key, Pod.LabelsMap c !! key = Some labels.

(** The states of the pod controller. *)
Inductive podReachable (prov cap : string) (json_Marshal : Labels -> result string)
  : Pod.State -> Prop :=
| podReachable_NewController : podReachable prov cap json_Marshal Pod.NewController
| podReachable_Reconcile kubeClient req c :
    podReachable prov cap json_Marshal c ->
    podReachable prov cap json_Marshal
      (Pod.Reconcile prov cap json_Marshal kubeClient req c).2.

(** The node selector terms that a pod requires. *)
Definition requiredTerms (pod : Selection.Pod) : list Selection.NodeSelectorTerm :=
  match Selection.PodAffinity pod with
  | Some {| Selection.PodNodeAffinity :=
              Some {| Selection.RequiredDuringSchedulingIgnoredDuringExecution :=
                        Some required |} |} => Selection.NodeSelectorTerms required
  | _ => []
  end.

(** The preferences of a pod's node affinity. *)
Definition preferredTerms (pod : Selection.Pod) : list (Z * Selection.NodeSelectorTerm) :=
  match Selection.PodAffinity pod with
  | Some {| Selection.PodNodeAffinity := Some nodeAffinity |} =>
    Selection.PreferredDuringSchedulingIgnoredDuringExecution nodeAffinity
  | _ => []
  end.

(** The requirements of the volumes of a pod, volume by volume. *)
Definition volumeRequirements (kubeClient : Selection.VolumeClient) (pod : Selection.Pod)
    (requirements : list (list Selection.NodeSelectorRequirement)) : Prop :=
  Forall2 (fun volume req => Selection.getRequirements kubeClient pod volume = Ok req)
          (Selection.Volumes pod) requirements.

(** The requirement that a label expression of a storage class becomes. *)
Definition topologyRequirement (requirement : Selection.TopologySelectorLabelRequirement)
  : Selection.NodeSelectorRequirement :=
  {| Selection.Key := Selection.TopologyKey requirement;
     Selection.Operator := Selection.NodeSelectorOpIn;
     Selection.Values := Selection.TopologyValues requirement |}.

(** [rangeLabels] visits every entry of a map of strings once. *)
Definition labelOrders (rangeLabels : Labels -> list (string * string)) : Prop :=
  forall m : Labels, rangeLabels m ≡ₚ map_to_list m.

(** A selector is given and has no empty key and no empty value. *)
Definition selectorValid (selector : option Labels) : Prop :=
  exists m, selector = Some m /\
    forall key value, m !! key = Some value -> key <> EmptyString /\ value <> EmptyString.

(** The request for the pod "web" of the examples, and the pod
    controller after it has reconciled that pod on a node that is gone. *)
Definition webKey : NamespacedName := {| Namespace := "default"; Name := "web" |}.

Definition afterWeb : Pod.State :=
  (Pod.Reconcile exampleProvisionerKey exampleCapacityKey exampleMarshal
                 (cluster n1 [orphanPod]) webKey Pod.NewController).2.

(** A storage class that allows one zone, and an unbound claim "data" of
    that class. *)
Definition zoneExpression : Selection.TopologySelectorLabelRequirement :=
  {| Selection.TopologyKey := LabelTopologyZone;
     Selection.TopologyValues := ["us-west-2a"%string] |}.

Definition zonalClass : Selection.StorageClass :=
  {| Selection.AllowedTopologies :=
       [ {| Selection.MatchLabelExpressions := [zoneExpression] |} ] |}.

Definition dataClaim : Selection.PersistentVolumeClaim_ :=
  {| Selection.VolumeName := ""; Selection.StorageClassName := Some "zonal"%string |}.

Definition volumeCluster : Selection.VolumeClient :=
  {| Selection.GetClaim := fun key =>
       if decide (key = {| Namespace := "default"; Name := "data" |}) then Ok dataClaim
       else Err ErrNotFound;
     Selection.GetVolume := fun _ => Err ErrNotFound;
     Selection.GetStorageClass := fun key =>
       if decide (key = {| Namespace := ""; Name := "zonal" |}) then Ok zonalClass
       else Err ErrNotFound |}.

(** A pod that mounts the claim "data", with a given affinity. *)
Definition dataPod (affinity : option Selection.Affinity) : Selection.Pod :=
  {| Selection.PodNamespace := "default";
     Selection.Volumes := [ {| Selection.PersistentVolumeClaim := Some "data"%string |} ];
     Selection.PodAffinity := affinity |}.

(** An affinity that requires an architecture. *)
Definition archTerm : Selection.NodeSelectorTerm :=
  {| Selection.MatchExpressions :=
       [ {| Selection.Key := LabelArchStable;
            Selection.Operator := Selection.NodeSelectorOpIn;
            Selection.Values := ["arm64"%string] |} ];
     Selection.MatchFields := [] |}.

Definition archAffinity : Selection.Affinity :=
  {| Selection.PodNodeAffinity :=
       Some {| Selection.RequiredDuringSchedulingIgnoredDuringExecution :=
                 Some {| Selection.NodeSelectorTerms := [archTerm] |};
               Selection.PreferredDuringSchedulingIgnoredDuringExecution := [] |} |}.

(** A node created at instant 0 that has no condition, and a
    [GetCondition] that finds none. *)
Definition silentNode : Liveness.LiveNode :=
  {| Liveness.CreationTimestamp := 0; Liveness.Conditions := [] |}.

Definition noCondition (conditions : list Liveness.NodeCondition) (conditionType : string)
  : Liveness.NodeCondition :=
  {| Liveness.ConditionType := ""; Liveness.Reason := "" |}.

(** A provider with both selectors and no tag. *)
Definition exampleAWS : AWSProvider.AWS :=
  {| AWSProvider.SubnetSelector := Some {[ "Name"%string := "private"%string ]};
     AWSProvider.SecurityGroupSelector := Some {[ "Name"%string := "nodes"%string ]};
     AWSProvider.Tags := ∅ |}.

(** * Facts *)

(** ** Sums of optional amounts *)

Lemma oplus_comm a b : oplus a b = oplus b a.
Proof. destruct a, b; simpl; f_equal; lia. Qed.

Lemma oplus_assoc a b c : oplus (oplus a b) c = oplus a (oplus b c).
Proof. destruct a, b, c; simpl; f_equal; lia. Qed.

Lemma oplus_None_r a : oplus a None = a.
Proof. by destruct a. Qed.

Lemma sumOpt_perm (l l' : list (option Z)) : l ≡ₚ l' -> sumOpt l = sumOpt l'.
Proof.
  induction 1 as [|x l l' _ IH|x y l|l l' l'' _ IH1 _ IH2]; simpl.
  - done.
  - by rewrite IH.
  - by rewrite <- !oplus_assoc, (oplus_comm y x).
  - by rewrite IH1.
Qed.

Lemma limitWithOverhead_None (limit : option Z) : limitWithOverhead limit None = limit.
Proof. by destruct limit. Qed.

(** ** A loop over a map that treats every key on its own *)

Section ranges.
Context {A : Type}.
Variable step : gmap string A -> string * Z -> gmap string A.
Variable f : string -> Z -> option A -> option A.
Hypothesis step_lookup : forall m k v k',
  step m (k, v) !! k' = if decide (k' = k) then f k v (m !! k) else m !! k'.

Lemma foldl_entries_lookup (l : list (string * Z)) (m : gmap string A) (k : string) :
  NoDup l.*1 ->
  foldl step m l !! k =
  match (list_to_map l : gmap string Z) !! k with
  | Some v => f k v (m !! k)
  | None => m !! k
  end.
Proof.
  revert m. induction l as [|[k0 v0] l IH]; intros m Hnd; simpl.
  - by rewrite lookup_empty.
  - inversion Hnd as [|? ? Hnotin Hnd']; subst.
    rewrite IH by done. rewrite step_lookup.
    destruct (decide (k = k0)) as [->|Hne].
    + rewrite lookup_insert_eq.
      by rewrite (not_elem_of_list_to_map_1 _ _ Hnotin).
    + by rewrite lookup_insert_ne.
Qed.

Lemma foldl_range_lookup (order : gmap string Z -> list (string * Z))
    (src : gmap string Z) (m : gmap string A) (k : string) :
  order src ≡ₚ map_to_list src ->
  foldl step m (order src) !! k =
  match src !! k with
  | Some v => f k v (m !! k)
  | None => m !! k
  end.
Proof.
  intros Hp.
  assert (NoDup (order src).*1) as Hnd.
  { rewrite Hp. apply NoDup_fst_map_to_list. }
  rewrite foldl_entries_lookup by done.
  rewrite (list_to_map_proper _ _ Hnd Hp), list_to_map_to_list. done.
Qed.
End ranges.

(** ** The resource aggregator *)

Section node_aggregator.

Variable rangeOrder : gmap string Z -> list (string * Z).
Hypothesis rangeOrder_perm : rangeOrders rangeOrder.

Local Abbreviation addResourceQuantity := (Node.addResourceQuantity rangeOrder).
Local Abbreviation addContainer := (Node.addContainer rangeOrder).
Local Abbreviation addPod := (Node.addPod rangeOrder).
Local Abbreviation getPodsTotalRequestsAndLimits :=
  (Node.getPodsTotalRequestsAndLimits rangeOrder).
Local Abbreviation getSystemOverhead := (Node.getSystemOverhead rangeOrder).

Lemma addQuantity_lookup (m : gmap string Z) k v k' :
  Node.addQuantity m (k, v) !! k' =
  if decide (k' = k) then oplus (m !! k) (Some v) else m !! k'.
Proof.
  unfold Node.addQuantity, Quantity_DeepCopy, Quantity_Add.
  destruct (m !! k) as [value|] eqn:E, (decide (k' = k)) as [->|Hne];
    simpl; by rewrite ?lookup_insert_eq, ?lookup_insert_ne.
Qed.

(** [addResourceQuantity] adds key by key, an absent key of the target
    counting as nothing. *)
Lemma addResourceQuantity_lookup (v t : gmap string Z) k :
  addResourceQuantity v t !! k = oplus (t !! k) (v !! k).
Proof.
  unfold Node.addResourceQuantity.
  rewrite (foldl_range_lookup Node.addQuantity
             (fun _ q o => oplus o (Some q)) addQuantity_lookup) by done.
  destruct (v !! k); [done|by rewrite oplus_None_r].
Qed.

Lemma addOverheadToLimit_lookup (m : gmap string Z) k v k' :
  Node.addOverheadToLimit m (k, v) !! k' =
  if decide (k' = k) then limitWithOverhead (m !! k) (Some v) else m !! k'.
Proof.
  unfold Node.addOverheadToLimit, limitWithOverhead, Quantity_Add.
  destruct (m !! k) as [value|] eqn:E, (decide (k' = k)) as [->|Hne];
    simpl; try destruct (Quantity_IsZero value); simpl;
    by rewrite ?lookup_insert_eq, ?lookup_insert_ne.
Qed.

Lemma addOverheadToLimits_lookup (ov limits : gmap string Z) k :
  foldl Node.addOverheadToLimit limits (rangeOrder ov) !! k =
  limitWithOverhead (limits !! k) (ov !! k).
Proof.
  rewrite (foldl_range_lookup Node.addOverheadToLimit
             (fun _ q o => limitWithOverhead o (Some q))
             addOverheadToLimit_lookup) by done.
  destruct (ov !! k); [done|]. by destruct (limits !! k).
Qed.

(** The system overhead of a resource name. *)
Lemma getSystemOverhead_lookup (node : Node) (name : string) :
  getSystemOverhead node !! name =
  (fun quantity => default 0 (Capacity (Status node) !! name) - quantity)
    <$> Allocatable (Status node) !! name.
Proof.
  unfold Node.getSystemOverhead.
  destruct (0 <? size (Allocatable (Status node)))%nat eqn:E.
  - rewrite (foldl_range_lookup
               (fun (acc : gmap string Z) '(resourceName, quantity) =>
                  <[resourceName :=
                      Quantity_Sub (default 0 (Capacity (Status node) !! resourceName))
                                   quantity]> acc)
               (fun k q _ => Some (default 0 (Capacity (Status node) !! k) - q)));
      [|intros m k v k'; destruct (decide (k' = k)) as [->|];
        by rewrite ?lookup_insert_eq, ?lookup_insert_ne|done].
    rewrite lookup_empty. by destruct (_ !! name).
  - apply Nat.ltb_ge, Nat.le_0_r, map_size_empty_inv in E.
    rewrite E. by rewrite !lookup_empty.
Qed.

Lemma addContainers_lookup (containers : list Container)
    (acc : gmap string Z * gmap string Z) (name : string) :
  (foldl addContainer acc containers).1 !! name =
    oplus (acc.1 !! name)
          (containerSum (fun c => Requests (Resources c)) containers name) /\
  (foldl addContainer acc containers).2 !! name =
    oplus (acc.2 !! name)
          (containerSum (fun c => Limits (Resources c)) containers name).
Proof.
  revert acc. induction containers as [|c cs IH]; intros acc; simpl.
  - by rewrite !oplus_None_r.
  - destruct (IH (addContainer acc c)) as [-> ->].
    unfold Node.addContainer; simpl.
    by rewrite !addResourceQuantity_lookup, !oplus_assoc.
Qed.

Lemma addPod_requests (acc : gmap string Z * gmap string Z) (pod : Pod) (name : string) :
  (addPod acc pod).1 !! name = oplus (acc.1 !! name) (podRequest pod name).
Proof.
  unfold Node.addPod, podRequest, containerRequests, overheadOf.
  destruct (IsTerminal pod); [by rewrite oplus_None_r|].
  destruct (addContainers_lookup (Containers (Spec pod)) acc name) as [Hr _].
  destruct (Overhead (Spec pod)) as [ov|]; simpl.
  - by rewrite addResourceQuantity_lookup, Hr, oplus_assoc.
  - by rewrite Hr, oplus_None_r.
Qed.

Lemma addPod_limits (acc : gmap string Z * gmap string Z) (pod : Pod) (name : string) :
  (addPod acc pod).2 !! name = podLimit pod name (acc.2 !! name).
Proof.
  unfold Node.addPod, podLimit, containerLimits, overheadOf.
  destruct (IsTerminal pod); [done|].
  destruct (addContainers_lookup (Containers (Spec pod)) acc name) as [_ Hl].
  destruct (Overhead (Spec pod)) as [ov|]; simpl.
  - by rewrite addOverheadToLimits_lookup, Hl.
  - by rewrite Hl, limitWithOverhead_None.
Qed.

Lemma addPods_lookup (pods : list Pod) (acc : gmap string Z * gmap string Z)
    (name : string) :
  (foldl addPod acc pods).1 !! name =
    oplus (acc.1 !! name) (sumOpt (map (fun pod => podRequest pod name) pods)) /\
  (foldl addPod acc pods).2 !! name =
    foldl (fun limit pod => podLimit pod name limit) (acc.2 !! name) pods.
Proof.
  revert acc. induction pods as [|pod pods IH]; intros acc; simpl.
  - by rewrite oplus_None_r.
  - destruct (IH (addPod acc pod)) as [-> ->].
    by rewrite addPod_requests, addPod_limits, oplus_assoc.
Qed.

Lemma getPodsTotalRequests_lookup (pods : list Pod) (name : string) :
  (getPodsTotalRequestsAndLimits pods).1 !! name =
  sumOpt (map (fun pod => podRequest pod name) pods).
Proof.
  unfold Node.getPodsTotalRequestsAndLimits.
  destruct (addPods_lookup pods (∅, ∅) name) as [-> _]; simpl.
  rewrite lookup_empty. by destruct (sumOpt _).
Qed.

Lemma getPodsTotalLimits_lookup (pods : list Pod) (name : string) :
  (getPodsTotalRequestsAndLimits pods).2 !! name =
  foldl (fun limit pod => podLimit pod name limit) None pods.
Proof.
  unfold Node.getPodsTotalRequestsAndLimits.
  destruct (addPods_lookup pods (∅, ∅) name) as [_ ->]; simpl.
  by rewrite lookup_empty.
Qed.

Lemma podLimit_plain (pod : Pod) (name : string) (limit : option Z) :
  (IsTerminal pod = false -> Overhead (Spec pod) = None) ->
  podLimit pod name limit = oplus limit (podLimitPlain pod name).
Proof.
  unfold podLimit, podLimitPlain, overheadOf. intros H.
  destruct (IsTerminal pod); [by rewrite oplus_None_r|].
  by rewrite H, limitWithOverhead_None.
Qed.

Lemma plain_limits_lookup (pods : list Pod) (name : string) (limit : option Z) :
  Forall (fun pod => IsTerminal pod = false -> Overhead (Spec pod) = None) pods ->
  foldl (fun limit pod => podLimit pod name limit) limit pods =
  oplus limit (sumOpt (map (fun pod => podLimitPlain pod name) pods)).
Proof.
  intros H. revert limit.
  induction H as [|pod pods Hpod _ IH]; intros limit; simpl.
  - by rewrite oplus_None_r.
  - by rewrite IH, podLimit_plain, oplus_assoc.
Qed.

(** For every list of pods and every permutation of it,
    [getPodsTotalRequestsAndLimits] returns the same requests; it returns
    the same limits when no pod that is counted declares an overhead.  The
    sums add key by key, an absent key counting as nothing ([oplus]), in
    whatever order the maps are visited. *)
Theorem aggregator_permutation (pods pods' : list Pod) :
  pods ≡ₚ pods' ->
  (getPodsTotalRequestsAndLimits pods).1 = (getPodsTotalRequestsAndLimits pods').1 /\
  (forall name, (getPodsTotalRequestsAndLimits pods).1 !! name =
                sumOpt (map (fun pod => podRequest pod name) pods)) /\
  ((forall pod, pod ∈ pods -> IsTerminal pod = false -> Overhead (Spec pod) = None) ->
   (getPodsTotalRequestsAndLimits pods).2 = (getPodsTotalRequestsAndLimits pods').2).
Proof.
  intros Hp. split; [|split].
  - apply map_eq; intros name. rewrite !getPodsTotalRequests_lookup.
    apply sumOpt_perm. by apply fmap_Permutation.
  - apply getPodsTotalRequests_lookup.
  - intros Hplain. apply map_eq; intros name.
    rewrite !getPodsTotalLimits_lookup.
    assert (Forall (fun pod => IsTerminal pod = false -> Overhead (Spec pod) = None) pods)
      as HF by (by apply Forall_forall).
    rewrite (plain_limits_lookup pods) by done.
    rewrite (plain_limits_lookup pods') by (by rewrite <- Hp).
    f_equal. apply sumOpt_perm. by apply fmap_Permutation.
Qed.

Lemma oplus_nonneg (a b : option Z) :
  (forall x, a = Some x -> 0 <= x) -> (forall y, b = Some y -> 0 <= y) ->
  forall z, oplus a b = Some z -> 0 <= z.
Proof.
  destruct a as [x|], b as [y|]; simpl; intros Ha Hb z [= <-].
  - specialize (Ha x eq_refl). specialize (Hb y eq_refl). lia.
  - by apply Ha.
  - by apply Hb.
Qed.

Lemma containerLimits_nonneg (pod : Pod) (name : string) :
  nonNegativeLimits pod ->
  forall value, containerLimits pod name = Some value -> 0 <= value.
Proof.
  intros [Hc _]. unfold containerLimits, containerSum.
  induction Hc as [|container containers Hlimits _ IH]; simpl; [done|].
  apply oplus_nonneg; [|done]. intros q Hq. by apply (Hlimits name).
Qed.

Lemma podLimit_nonneg (pod : Pod) (name : string) (limit : option Z) :
  nonNegativeLimits pod ->
  (forall x, limit = Some x -> 0 <= x) ->
  forall value, podLimit pod name limit = Some value -> 0 <= value.
Proof.
  intros Hpod Hlimit value. unfold podLimit.
  destruct (IsTerminal pod); [apply Hlimit|].
  pose proof (oplus_nonneg limit (containerLimits pod name) Hlimit
                (containerLimits_nonneg pod name Hpod)) as Hsum.
  unfold limitWithOverhead.
  destruct (oplus limit (containerLimits pod name)) as [sum|]; [|done].
  specialize (Hsum sum eq_refl).
  destruct (overheadOf pod name) as [q|] eqn:Eq; [|by intros [= <-]].
  assert (0 <= q) as Hq.
  { unfold overheadOf in Eq. destruct Hpod as [_ Hov].
    destruct (Overhead (Spec pod)) as [podOverhead|]; [|done].
    by apply (Hov podOverhead eq_refl name). }
  destruct (Quantity_IsZero sum); intros [= <-]; lia.
Qed.

(** The limits of pods without negative quantities are not negative. *)
Lemma limits_nonneg (pods : list Pod) (name : string) :
  Forall nonNegativeLimits pods ->
  forall value, (getPodsTotalRequestsAndLimits pods).2 !! name = Some value -> 0 <= value.
Proof.
  intros Hpods. rewrite getPodsTotalLimits_lookup.
  assert (forall limit, (forall x, limit = Some x -> 0 <= x) ->
            forall value,
              foldl (fun limit pod => podLimit pod name limit) limit pods = Some value ->
              0 <= value) as H.
  { induction Hpods as [|pod pods Hpod _ IH]; intros limit Hlimit; simpl; [done|].
    apply IH. by apply podLimit_nonneg. }
  by apply H.
Qed.

(** C4.  Let [before] be the sums over a list of pods and [after] the
    sums once one more pod is counted, no pod having a negative limit or
    overhead.  A terminal pod changes neither sum.  For any other pod and
    every resource name, the requests gain what the pod's containers
    request and, unconditionally, the overhead the pod declares; the
    limits gain what the containers limit, and then the overhead only
    where the limit entry exists and is strictly positive: no entry is
    created from overhead alone and a zero-valued entry stays zero.  A
    limit entry is never negative, so these are all the cases. *)
Theorem overhead_rule (pods : list Pod) (pod : Pod) (name : string) :
  Forall nonNegativeLimits pods ->
  nonNegativeLimits pod ->
  let before := getPodsTotalRequestsAndLimits pods in
  let after := getPodsTotalRequestsAndLimits (pods ++ [pod]) in
  (IsTerminal pod = true -> after = before) /\
  (IsTerminal pod = false ->
   after.1 !! name =
     oplus (oplus (before.1 !! name) (containerRequests pod name)) (overheadOf pod name) /\
   let limit := oplus (before.2 !! name) (containerLimits pod name) in
   (limit = None -> after.2 !! name = None) /\
   (limit = Some 0 -> after.2 !! name = Some 0) /\
   (forall value, limit = Some value -> 0 < value ->
      after.2 !! name = Some (value + default 0 (overheadOf pod name))) /\
   (forall value, limit = Some value -> 0 <= value)).
Proof.
  intros Hpods Hpod. simpl.
  pose proof (oplus_nonneg _ _ (limits_nonneg pods name Hpods)
                (containerLimits_nonneg pod name Hpod)) as Hnonneg.
  revert Hnonneg.
  unfold Node.getPodsTotalRequestsAndLimits. rewrite foldl_app. simpl.
  set (acc := foldl addPod (∅, ∅) pods). intros Hnonneg. split.
  - intros Ht. unfold Node.addPod. by rewrite Ht.
  - intros Ht. rewrite addPod_requests, addPod_limits.
    unfold podRequest, podLimit. rewrite Ht, oplus_assoc. split; [done|].
    split; [|split; [|split]].
    + by intros ->.
    + intros ->. by destruct (overheadOf pod name).
    + intros value -> Hpos. unfold limitWithOverhead, Quantity_IsZero.
      destruct (overheadOf pod name) as [q|]; simpl.
      * destruct (Z.eqb_spec value 0); [lia|done].
      * f_equal. lia.
    + done.
Qed.

End node_aggregator.

Lemma getPodsTotalRequestsAndLimits_order rangeOrder rangeOrder' (pods : list Pod) :
  rangeOrders rangeOrder -> rangeOrders rangeOrder' ->
  Node.getPodsTotalRequestsAndLimits rangeOrder pods =
  Node.getPodsTotalRequestsAndLimits rangeOrder' pods.
Proof.
  intros H H'.
  rewrite (surjective_pairing (Node.getPodsTotalRequestsAndLimits rangeOrder pods)).
  rewrite (surjective_pairing (Node.getPodsTotalRequestsAndLimits rangeOrder' pods)).
  f_equal; apply map_eq; intros name.
  - by rewrite !getPodsTotalRequests_lookup.
  - by rewrite !getPodsTotalLimits_lookup.
Qed.

Lemma getSystemOverhead_order rangeOrder rangeOrder' (node : Node) :
  rangeOrders rangeOrder -> rangeOrders rangeOrder' ->
  Node.getSystemOverhead rangeOrder node = Node.getSystemOverhead rangeOrder' node.
Proof.
  intros H H'. apply map_eq; intros name. by rewrite !getSystemOverhead_lookup.
Qed.

Lemma resourceListFor_order rangeOrder rangeOrder' node items g :
  rangeOrders rangeOrder -> rangeOrders rangeOrder' ->
  resourceListFor rangeOrder node items g = resourceListFor rangeOrder' node items g.
Proof.
  intros H H'. unfold resourceListFor.
  destruct g; try done;
    by rewrite ?(getPodsTotalRequestsAndLimits_order rangeOrder rangeOrder'),
               ?(getSystemOverhead_order rangeOrder rangeOrder').
Qed.

Lemma rangeOrder_small rangeOrder (m : gmap string Z) :
  rangeOrders rangeOrder -> (size m <=? 1)%nat = true -> rangeOrder m = map_to_list m.
Proof.
  intros H Hs. specialize (H m). apply Nat.leb_le in Hs.
  rewrite <- length_map_to_list in Hs.
  destruct (map_to_list m) as [|x [|y l]]; simpl in Hs; [| |lia].
  - by apply Permutation_nil_r in H.
  - by apply Permutation_singleton_r in H.
Qed.

Lemma rangeOrders_map_to_list : rangeOrders map_to_list.
Proof. by intros m. Qed.

(** ** Labels, vectors and the registry *)

Lemma validateLabels_None (names : list string) (labels : gmap string string) :
  validateLabels names labels = None <->
  size labels = length names /\
  (forall k v, labels !! k = Some v -> utf8_ValidString v = true) /\
  (forall n, n ∈ names -> is_Some (labels !! n)).
Proof.
  unfold validateLabels.
  destruct (Nat.eqb_spec (size labels) (length names)) as [Hs|Hs]; simpl;
    [|split; [done|by intros [? _]]].
  destruct (forallb utf8_ValidString (map snd (map_to_list labels))) eqn:Hv; simpl.
  - rewrite forallb_forall in Hv.
    assert (forall k v, labels !! k = Some v -> utf8_ValidString v = true) as Hv'.
    { intros k v Hkv. apply Hv, in_map_iff. exists (k, v). split; [done|].
      apply list_elem_of_In. by apply elem_of_map_to_list. }
    destruct (filter _ names) as [|n rest] eqn:Hf.
    + split; [intros _|done]. repeat split; [done..|].
      intros n Hn. destruct (labels !! n) eqn:E; [done|].
      assert (n ∈ filter (fun n => labels !! n = None) names) as Hin
        by (by apply list_elem_of_filter).
      rewrite Hf in Hin. by apply not_elem_of_nil in Hin.
    + split; [done|]. intros (_ & _ & Hall).
      assert (n ∈ filter (fun n => labels !! n = None) names) as Hin
        by (rewrite Hf; left).
      apply list_elem_of_filter in Hin as [Hnone Hin].
      destruct (Hall n Hin) as [? ?]. congruence.
  - split; [done|]. intros (_ & Hall & _).
    assert (forallb utf8_ValidString (map snd (map_to_list labels)) = true); [|congruence].
    apply forallb_forall. intros v Hin. apply in_map_iff in Hin as [[k v'] [<- Hin]].
    apply list_elem_of_In, elem_of_map_to_list in Hin. by apply (Hall k).
Qed.

Lemma vec_setVec (g g' : Node.gauge) (v : gmap (gmap string string) float) (r : Node.Registry) :
  Node.vec g (Node.setVec g' v r) = if decide (g = g') then v else Node.vec g r.
Proof. by destruct g, g'. Qed.

Lemma vec_deleteLabels (g : Node.gauge) (l : gmap string string) (r : Node.Registry) :
  Node.vec g (Node.deleteLabels l r) = GaugeVec_Delete Node.labelNames l (Node.vec g r).
Proof. by destruct g. Qed.

Lemma Registry_eq (r r' : Node.Registry) :
  (forall g, Node.vec g r = Node.vec g r') -> r = r'.
Proof.
  intros H. destruct r, r'.
  pose proof (H Node.allocatableGaugeVec). pose proof (H Node.podRequestsGaugeVec).
  pose proof (H Node.podLimitsGaugeVec). pose proof (H Node.daemonRequestsGaugeVec).
  pose proof (H Node.daemonLimitsGaugeVec). pose proof (H Node.overheadGaugeVec).
  simpl in *. by subst.
Qed.

Lemma GaugeVec_Delete_lookup names (l l' : gmap string string)
    (v : gmap (gmap string string) float) x :
  GaugeVec_Delete names l v !! l' = Some x -> v !! l' = Some x.
Proof.
  unfold GaugeVec_Delete. destruct (validateLabels names l); [done|].
  intros H. by apply lookup_delete_Some in H as [_ ?].
Qed.

Lemma GaugeVec_Delete_same names (l : gmap string string)
    (v : gmap (gmap string string) float) :
  validateLabels names l = None -> GaugeVec_Delete names l v !! l = None.
Proof. unfold GaugeVec_Delete. intros ->. apply lookup_delete_eq. Qed.

Lemma GaugeVec_Delete_other names (l l' : gmap string string)
    (v : gmap (gmap string string) float) :
  l' <> l -> GaugeVec_Delete names l v !! l' = v !! l'.
Proof.
  unfold GaugeVec_Delete. intros Hne. destruct (validateLabels names l); [done|].
  by apply lookup_delete_ne.
Qed.

Lemma deleteSlice_lookup (g : Node.gauge) (slice : list (gmap string string))
    (r : Node.Registry) (l : gmap string string) x :
  Node.vec g (foldl (fun r labels => Node.deleteLabels labels r) r slice) !! l = Some x ->
  Node.vec g r !! l = Some x /\ (l ∈ slice -> validateLabels Node.labelNames l <> None).
Proof.
  revert r. induction slice as [|l0 slice IH]; intros r; simpl.
  - intros H. split; [done|]. by intros ?%not_elem_of_nil.
  - intros H. apply IH in H as [H Hslice]. rewrite vec_deleteLabels in H.
    split; [by eapply GaugeVec_Delete_lookup|].
    intros [->|Hin]%elem_of_cons; [|by apply Hslice].
    intros Hv. by rewrite GaugeVec_Delete_same in H.
Qed.

Lemma deleteSlice_other (g : Node.gauge) (slice : list (gmap string string))
    (r : Node.Registry) (l : gmap string string) :
  l ∉ slice ->
  Node.vec g (foldl (fun r labels => Node.deleteLabels labels r) r slice) !! l =
  Node.vec g r !! l.
Proof.
  revert r. induction slice as [|l0 slice IH]; intros r Hn; simpl; [done|].
  apply not_elem_of_cons in Hn as [Hne Hn].
  rewrite IH by done. rewrite vec_deleteLabels. by apply GaugeVec_Delete_other.
Qed.

Section node_labels.
Variable ProvisionerNameLabelKey : string.
Variable LabelCapacityType : string.
Local Abbreviation generateLabels :=
  (Node.generateLabels ProvisionerNameLabelKey LabelCapacityType).

Lemma generateLabels_dom (node : Node) (rtn : string) :
  dom (generateLabels node rtn) = list_to_set Node.labelNames.
Proof.
  unfold Node.generateLabels, Node.labelNames.
  repeat case_match; rewrite !dom_insert_L, dom_empty_L; simpl; set_solver.
Qed.

Lemma generateLabels_resourceType (node : Node) (rtn : string) :
  generateLabels node rtn !! Node.resourceType = Some rtn.
Proof. unfold Node.generateLabels. by repeat case_match. Qed.

Lemma generateLabels_nodeName (node : Node) (rtn : string) :
  generateLabels node rtn !! Node.nodeName = Some (MetaName (NodeMeta node)).
Proof. unfold Node.generateLabels. by repeat case_match. Qed.

Lemma generateLabels_provisioner (node : Node) (rtn : string) :
  generateLabels node rtn !! Node.nodeProvisioner =
  Some (default "N/A"%string (MetaLabels (NodeMeta node) !! ProvisionerNameLabelKey)).
Proof. unfold Node.generateLabels. by repeat case_match. Qed.

Lemma generateLabels_capacityType (node : Node) (rtn : string) :
  generateLabels node rtn !! Node.nodeCapacityType =
  Some (default "N/A"%string (MetaLabels (NodeMeta node) !! LabelCapacityType)).
Proof. unfold Node.generateLabels. by repeat case_match. Qed.

Lemma generateLabels_inj (node : Node) (rtn rtn' : string) :
  generateLabels node rtn = generateLabels node rtn' -> rtn = rtn'.
Proof.
  intros H.
  assert (generateLabels node rtn !! Node.resourceType =
          generateLabels node rtn' !! Node.resourceType) as H' by (by rewrite H).
  rewrite !generateLabels_resourceType in H'. congruence.
Qed.
End node_labels.

(** ** The series of the vectors are the recorded ones *)

Lemma Tracking_NewController : Tracking Node.NewController.
Proof. intros g labels x H. by destruct g. Qed.

Section node_tracking.
Variable ProvisionerNameLabelKey : string.
Variable LabelCapacityType : string.
Variable rangeOrder : ResourceList -> list (string * Quantity).
Variable gaugeOrder : list Node.gauge.

Local Abbreviation generateLabels :=
  (Node.generateLabels ProvisionerNameLabelKey LabelCapacityType).
Local Abbreviation insertGaugeValue :=
  (Node.insertGaugeValue ProvisionerNameLabelKey LabelCapacityType).
Local Abbreviation insertEntries :=
  (Node.insertEntries ProvisionerNameLabelKey LabelCapacityType).
Local Abbreviation insertGaugeValues :=
  (Node.insertGaugeValues ProvisionerNameLabelKey LabelCapacityType rangeOrder).
Local Abbreviation updateGauges :=
  (Node.updateGauges ProvisionerNameLabelKey LabelCapacityType rangeOrder gaugeOrder).
Local Abbreviation Reconcile :=
  (Node.Reconcile ProvisionerNameLabelKey LabelCapacityType rangeOrder gaugeOrder).

Lemma deleteGauges_Tracking (key : NamespacedName) (c : Node.State) :
  Tracking c -> Tracking (Node.deleteGauges key c).
Proof.
  intros HT g labels x H. unfold Node.deleteGauges in H; simpl in H.
  assert (Node.vec g (Node.Gauges c) !! labels = Some x /\
          forall slice, Node.LabelSliceMap c !! key = Some slice ->
                        labels ∈ slice -> validateLabels Node.labelNames labels <> None)
    as [H0 Hdel].
  { destruct (Node.LabelSliceMap c !! key) as [slice|].
    - apply deleteSlice_lookup in H as [? ?]. split; [done|]. by intros ? [= <-].
    - split; [done|]. done. }
  destruct (HT _ _ _ H0) as [Hv (slice & Hs & Hin)]. split; [done|].
  exists slice. split; [|done]. unfold Node.deleteGauges; simpl.
  destruct (decide (key = nodeKey (label labels Node.nodeName))) as [->|Hne].
  - by destruct (Hdel _ Hs Hin).
  - by rewrite lookup_insert_ne.
Qed.

Lemma tracked_mono (c c' : Node.State) (labels : gmap string string) :
  (forall key slice, Node.LabelSliceMap c !! key = Some slice ->
     exists slice', Node.LabelSliceMap c' !! key = Some slice' /\ slice ⊆ slice') ->
  tracked c labels -> tracked c' labels.
Proof.
  intros Hm (slice & Hs & Hin). destruct (Hm _ _ Hs) as (slice' & ? & Hsub).
  exists slice'. split; [done|]. by apply Hsub.
Qed.

Lemma insertGaugeValue_Tracking (node : Node) (g : Node.gauge) (c : Node.State)
    (entry : string * Z) :
  Tracking c -> Tracking (insertGaugeValue node g c entry).2.
Proof.
  intros HT. destruct entry as [name q]. unfold Node.insertGaugeValue.
  set (labels := generateLabels node (Node.resourceTypeName name)).
  set (key := {| Namespace := ""; Name := MetaName (NodeMeta node) |}).
  set (slices := <[key := _]> (Node.LabelSliceMap c)).
  assert (forall k slice, Node.LabelSliceMap c !! k = Some slice ->
            exists slice', slices !! k = Some slice' /\ slice ⊆ slice') as Hmono.
  { intros k slice Hk. unfold slices. destruct (decide (k = key)) as [->|Hne].
    - rewrite lookup_insert_eq, Hk. eexists. split; [done|]. simpl.
      intros y Hy. apply elem_of_app. by left.
    - rewrite lookup_insert_ne by done. by exists slice. }
  assert (tracked {| Node.LabelSliceMap := slices; Node.Gauges := Node.Gauges c |} labels
          /\ forall r, tracked {| Node.LabelSliceMap := slices; Node.Gauges := r |} labels)
    as [_ Hnew].
  { assert (exists slice, slices !! nodeKey (label labels Node.nodeName) = Some slice /\
                          labels ∈ slice) as Hex.
    { unfold label, labels. rewrite generateLabels_nodeName; simpl.
      unfold slices, nodeKey, key. rewrite lookup_insert_eq. eexists. split; [done|].
      apply elem_of_app. right. by apply list_elem_of_singleton. }
    split; [done|]. intros r. exact Hex. }
  unfold GetMetricWith.
  destruct (validateLabels Node.labelNames labels) as [e|] eqn:Hv; simpl.
  - intros g' l x H. simpl in H. destruct (HT _ _ _ H) as [? Htr]. split; [done|].
    eapply tracked_mono; [|exact Htr]. exact Hmono.
  - intros g' l x H. simpl in H. rewrite vec_setVec in H.
    destruct (decide (l = labels)) as [->|Hne]; [split; [done|apply Hnew]|].
    assert (Node.vec g' (Node.Gauges c) !! l = Some x) as H0.
    { destruct (decide (g' = g)) as [->|]; [|done].
      unfold Gauge_Set in H. rewrite lookup_insert_ne in H by done.
      destruct (Node.vec g (Node.Gauges c) !! labels); [done|].
      by rewrite lookup_insert_ne in H. }
    destruct (HT _ _ _ H0) as [? Htr]. split; [done|].
    eapply tracked_mono; [|exact Htr]. exact Hmono.
Qed.

Lemma insertEntries_Tracking (node : Node) (g : Node.gauge)
    (entries : list (string * Z)) (c : Node.State) :
  Tracking c -> Tracking (insertEntries node g entries c).2.
Proof.
  revert c. induction entries as [|entry rest IH]; intros c HT; simpl; [done|].
  pose proof (insertGaugeValue_Tracking node g c entry HT) as H1.
  destruct (insertGaugeValue node g c entry) as [[err|] c']; simpl in *; [done|].
  by apply IH.
Qed.

Lemma insertAll_Tracking (node : Node) (resourceList : Node.gauge -> gmap string Z)
    (order : list Node.gauge) (c : Node.State) :
  Tracking c ->
  Tracking (foldl (fun c gaugeVec =>
                     (insertGaugeValues (resourceList gaugeVec) node gaugeVec c).2)
                  c order).
Proof.
  revert c. induction order as [|g0 gs IH]; intros c HT; simpl; [done|].
  apply IH. by apply insertEntries_Tracking.
Qed.

Lemma updateGauges_Tracking (kubeClient : Client) (node : Node) (c : Node.State) :
  Tracking c -> Tracking (updateGauges kubeClient node c).2.
Proof.
  intros HT. unfold Node.updateGauges.
  destruct (ListPods kubeClient _) as [items|err]; [|done].
  destruct (Node.getPodsTotalRequestsAndLimits _ (filter _ items)) as [podRequest podLimits].
  destruct (Node.getPodsTotalRequestsAndLimits _ (filter _ items))
    as [daemonRequest daemonLimits].
  by apply insertAll_Tracking.
Qed.

Lemma Reconcile_Tracking (kubeClient : Client) (req : NamespacedName) (c : Node.State) :
  Tracking c -> Tracking (Reconcile kubeClient req c).2.
Proof.
  intros HT. unfold Node.Reconcile.
  pose proof (deleteGauges_Tracking req c HT) as H1.
  destruct (GetNode kubeClient req) as [node|err].
  - pose proof (updateGauges_Tracking kubeClient node _ H1) as H2.
    by destruct (updateGauges kubeClient node _) as [[?|] ?].
  - by destruct (errors_IsNotFound err).
Qed.

End node_tracking.

(** ** What a reconciliation publishes *)

Section node_publish.
Variable ProvisionerNameLabelKey : string.
Variable LabelCapacityType : string.
Variable rangeOrder : ResourceList -> list (string * Quantity).
Variable gaugeOrder : list Node.gauge.
Hypothesis gaugeOrder_perm : gaugeOrder ≡ₚ Node.gaugeVecs.

Local Abbreviation generateLabels :=
  (Node.generateLabels ProvisionerNameLabelKey LabelCapacityType).
Local Abbreviation insertGaugeValue :=
  (Node.insertGaugeValue ProvisionerNameLabelKey LabelCapacityType).
Local Abbreviation insertEntries :=
  (Node.insertEntries ProvisionerNameLabelKey LabelCapacityType).
Local Abbreviation insertGaugeValues :=
  (Node.insertGaugeValues ProvisionerNameLabelKey LabelCapacityType rangeOrder).
Local Abbreviation updateGauges :=
  (Node.updateGauges ProvisionerNameLabelKey LabelCapacityType rangeOrder gaugeOrder).
Local Abbreviation Reconcile :=
  (Node.Reconcile ProvisionerNameLabelKey LabelCapacityType rangeOrder gaugeOrder).
Local Abbreviation publishEntries :=
  (publishEntries ProvisionerNameLabelKey LabelCapacityType).

Lemma insertEntries_vec (node : Node) (g g' : Node.gauge)
    (entries : list (string * Z)) (c : Node.State) :
  Node.vec g' (Node.Gauges (insertEntries node g entries c).2) =
  if decide (g' = g) then publishEntries node entries (Node.vec g (Node.Gauges c))
  else Node.vec g' (Node.Gauges c).
Proof.
  revert c. induction entries as [|[name q] rest IH]; intros c; simpl.
  - by case_decide; subst.
  - destruct (GetMetricWith _ _ _) as [series|err]; simpl.
    + rewrite IH; simpl. rewrite !vec_setVec.
      destruct (decide (g' = g)) as [->|]; [|done].
      by case_decide.
    + by case_decide; subst.
Qed.

Lemma insertAll_vec (node : Node) (resourceList : Node.gauge -> gmap string Z)
    (order : list Node.gauge) (c : Node.State) (g : Node.gauge) :
  NoDup order ->
  Node.vec g (Node.Gauges
    (foldl (fun c gaugeVec =>
              (insertGaugeValues (resourceList gaugeVec) node gaugeVec c).2) c order)) =
  if decide (g ∈ order)
  then publishEntries node (rangeOrder (resourceList g)) (Node.vec g (Node.Gauges c))
  else Node.vec g (Node.Gauges c).
Proof.
  intros Hnd. revert c. induction Hnd as [|g0 gs Hnotin Hnd IH]; intros c; simpl.
  - destruct (decide (g ∈ [])) as [?%not_elem_of_nil|]; done.
  - rewrite IH. unfold Node.insertGaugeValues. rewrite insertEntries_vec.
    destruct (decide (g = g0)) as [->|Hne].
    + destruct (decide (g0 ∈ gs)); [done|].
      destruct (decide (g0 ∈ g0 :: gs)) as [|Hn]; [done|]. destruct Hn. left.
    + destruct (decide (g ∈ gs)) as [Hin|Hnin].
      * destruct (decide (g ∈ g0 :: gs)) as [|Hn]; [done|]. destruct Hn. by right.
      * destruct (decide (g ∈ g0 :: gs)) as [[?|?]%elem_of_cons|]; done.
Qed.

Lemma gaugeOrder_NoDup : NoDup gaugeOrder.
Proof.
  rewrite gaugeOrder_perm. by apply (bool_decide_unpack _).
Qed.

Lemma gaugeOrder_all (g : Node.gauge) : g ∈ gaugeOrder.
Proof. rewrite gaugeOrder_perm. by destruct g; apply (bool_decide_unpack _). Qed.

Lemma size_pos_nonempty (m : gmap string Z) :
  (0 <? size m)%nat = if decide (m = ∅) then false else true.
Proof.
  case_decide as H.
  - subst. by rewrite map_size_empty.
  - apply Nat.ltb_lt. apply map_size_non_empty_iff in H. lia.
Qed.

(** After [updateGauges], each vector holds what [insertGaugeValues]
    publishes from its own resource list, whatever the order of the
    vectors. *)
Lemma updateGauges_vec (kubeClient : Client) (node : Node) (c : Node.State)
    (items : list Pod) (g : Node.gauge) :
  ListPods kubeClient (MetaName (NodeMeta node)) = Ok items ->
  (updateGauges kubeClient node c).1 = None /\
  Node.vec g (Node.Gauges (updateGauges kubeClient node c).2) =
  publishEntries node (rangeOrder (resourceListFor rangeOrder node items g))
                 (Node.vec g (Node.Gauges c)).
Proof.
  intros Hl. unfold Node.updateGauges. rewrite Hl.
  unfold resourceListFor.
  destruct (Node.getPodsTotalRequestsAndLimits _ (filter _ items)) as [podRequest podLimits].
  destruct (Node.getPodsTotalRequestsAndLimits _ (filter _ items))
    as [daemonRequest daemonLimits].
  split; [done|]. simpl.
  rewrite insertAll_vec by apply gaugeOrder_NoDup.
  destruct (decide (g ∈ gaugeOrder)) as [_|Hn]; [|destruct Hn; apply gaugeOrder_all].
  rewrite size_pos_nonempty.
  destruct g; simpl; try done. by case_decide.
Qed.

End node_publish.

Section node_publish_lookup.
Variable ProvisionerNameLabelKey : string.
Variable LabelCapacityType : string.
Local Abbreviation generateLabels :=
  (Node.generateLabels ProvisionerNameLabelKey LabelCapacityType).
Local Abbreviation publishEntries :=
  (publishEntries ProvisionerNameLabelKey LabelCapacityType).
Local Abbreviation publishable :=
  (publishable ProvisionerNameLabelKey LabelCapacityType).

Lemma GetMetricWith_Set names (labels : gmap string string)
    (v : gmap (gmap string string) float) (x : float) :
  validateLabels names labels = None ->
  exists series, GetMetricWith names labels v = Ok series /\
                 Gauge_Set labels x series = <[labels := x]> v.
Proof.
  intros Hv. unfold GetMetricWith, Gauge_Set. rewrite Hv.
  destruct (v !! labels); eexists; (split; [done|]); [done|].
  apply insert_insert_eq.
Qed.

Lemma publishEntries_other (node : Node) (entries : list (string * Z))
    (v : gmap (gmap string string) float) (labels : gmap string string) :
  (forall name q, (name, q) ∈ entries ->
     generateLabels node (Node.resourceTypeName name) <> labels) ->
  publishEntries node entries v !! labels = v !! labels.
Proof.
  revert v. induction entries as [|[name q] rest IH]; intros v Hne; simpl; [done|].
  unfold GetMetricWith.
  destruct (validateLabels _ _); simpl; [done|].
  rewrite IH by (intros n x ?; apply (Hne n x); by right).
  assert (generateLabels node (Node.resourceTypeName name) <> labels) as Hn
    by (apply (Hne name q); left).
  unfold Gauge_Set. rewrite lookup_insert_ne by done.
  destruct (v !! _); [done|]. by rewrite lookup_insert_ne.
Qed.

Lemma publishEntries_lookup (node : Node) (entries : list (string * Z))
    (v : gmap (gmap string string) float) (name : string) (q : Z) :
  (forall name' q', (name', q') ∈ entries ->
     validateLabels Node.labelNames
       (generateLabels node (Node.resourceTypeName name')) = None) ->
  (forall name' q', (name', q') ∈ entries ->
     Node.resourceTypeName name' = Node.resourceTypeName name ->
     (name', q') = (name, q)) ->
  (name, q) ∈ entries ->
  publishEntries node entries v !! generateLabels node (Node.resourceTypeName name) =
  Some (Node.gaugeValue name q).
Proof.
  revert v. induction entries as [|[n0 q0] rest IH]; intros v Hacc Huniq Hin.
  - by apply not_elem_of_nil in Hin.
  - simpl.
    destruct (GetMetricWith_Set Node.labelNames
                (generateLabels node (Node.resourceTypeName n0)) v
                (Node.gaugeValue n0 q0)) as (series & -> & ->).
    { apply (Hacc n0 q0). left. }
    destruct (decide ((name, q) ∈ rest)) as [Hrest|Hrest].
    + apply IH; [| |done]; intros n x ?; [apply (Hacc n x)|apply Huniq]; by right.
    + apply elem_of_cons in Hin as [[= <- <-]|]; [|done].
      rewrite publishEntries_other; [apply lookup_insert_eq|].
      intros name' q' Hin' Heq. apply generateLabels_inj in Heq.
      rewrite (Huniq name' q') in Hin'; [done|by right|done].
Qed.

(** A resource of the list is published under its own labels with its
    own value, in whatever order the list is visited. *)
Lemma publish_range_lookup (rangeOrder : ResourceList -> list (string * Quantity))
    (node : Node) (src : gmap string Z) (v : gmap (gmap string string) float)
    (name : string) (q : Z) :
  rangeOrder src ≡ₚ map_to_list src ->
  src !! name = Some q ->
  publishable node src name ->
  publishEntries node (rangeOrder src) v !! generateLabels node (Node.resourceTypeName name)
  = Some (Node.gaugeValue name q).
Proof.
  intros Hp Hq [Hacc Huniq].
  assert (forall n x, (n, x) ∈ rangeOrder src <-> src !! n = Some x) as Hin.
  { intros n x. rewrite Hp. apply elem_of_map_to_list. }
  apply publishEntries_lookup.
  - intros n x Hnx%Hin. by apply Hacc.
  - intros n x Hnx%Hin Heq. assert (n = name) as -> by (by apply Huniq).
    congruence.
  - by apply Hin.
Qed.

End node_publish_lookup.

Lemma reachable_Tracking (prov cap : string) (c : Node.State) :
  reachable prov cap c -> Tracking c.
Proof.
  induction 1 as [|rangeOrder gaugeOrder kubeClient req c _ _ _ IH].
  - apply Tracking_NewController.
  - by apply Reconcile_Tracking.
Qed.

Lemma Reconcile_found prov cap rangeOrder gaugeOrder (kubeClient : Client)
    (req : NamespacedName) (c : Node.State) (node : Node) (items : list Pod) :
  gaugeOrder ≡ₚ Node.gaugeVecs ->
  GetNode kubeClient req = Ok node ->
  ListPods kubeClient (MetaName (NodeMeta node)) = Ok items ->
  (Node.Reconcile prov cap rangeOrder gaugeOrder kubeClient req c).1 = None /\
  forall g,
    Node.vec g (Node.Gauges
      (Node.Reconcile prov cap rangeOrder gaugeOrder kubeClient req c).2) =
    publishEntries prov cap node (rangeOrder (resourceListFor rangeOrder node items g))
                   (Node.vec g (Node.Gauges (Node.deleteGauges req c))).
Proof.
  intros Hg Hn Hl. unfold Node.Reconcile. rewrite Hn.
  pose proof (fun g => updateGauges_vec prov cap rangeOrder gaugeOrder Hg kubeClient node
                         (Node.deleteGauges req c) items g Hl) as H.
  destruct (Node.updateGauges _ _ _ _ _ _ _) as [[err|] c'] eqn:E; simpl in *.
  - by destruct (H Node.overheadGaugeVec).
  - split; [done|]. intros g. by destruct (H g).
Qed.

(** C5.  Let [c] be a state of the controller and [N] a node that is
    gone: the fetch of [N] answers not-found.  Reconciling [N] succeeds
    without error, leaves the tracking entry of [N] empty, leaves none of
    the tuples that were tracked for [N] in any of the six vectors, and
    leaves no series at all whose [node_name] is [N]. *)
Theorem deleted_node_leaves_no_series prov cap rangeOrder gaugeOrder
    (kubeClient : Client) (N : string) (c : Node.State) (err : error) :
  reachable prov cap c ->
  GetNode kubeClient (nodeKey N) = Err err ->
  errors_IsNotFound err = true ->
  let out := Node.Reconcile prov cap rangeOrder gaugeOrder kubeClient (nodeKey N) c in
  out.1 = None /\
  Node.LabelSliceMap out.2 !! nodeKey N = Some [] /\
  (forall slice labels g,
     Node.LabelSliceMap c !! nodeKey N = Some slice -> labels ∈ slice ->
     Node.vec g (Node.Gauges out.2) !! labels = None) /\
  (forall g labels x,
     Node.vec g (Node.Gauges out.2) !! labels = Some x ->
     labels !! Node.nodeName <> Some N).
Proof.
  intros Hr Hget Hnf. apply reachable_Tracking in Hr.
  unfold Node.Reconcile. rewrite Hget, Hnf. simpl.
  pose proof (deleteGauges_Tracking (nodeKey N) c Hr) as HT.
  split; [done|]. split; [apply lookup_insert_eq|]. split.
  - intros slice labels g Hs Hin.
    destruct (Node.vec g _ !! labels) as [x|] eqn:E; [|done]. exfalso.
    unfold Node.deleteGauges in E; simpl in E. rewrite Hs in E.
    apply deleteSlice_lookup in E as [E Hv].
    destruct (Hr _ _ _ E) as [Hok _]. by apply Hv.
  - intros g labels x H HN.
    destruct (HT _ _ _ H) as [_ (slice & Hs & Hin)].
    unfold label in Hs. rewrite HN in Hs. simpl in Hs.
    rewrite lookup_insert_eq in Hs. injection Hs as <-.
    by apply not_elem_of_nil in Hin.
Qed.

(** C10.  When the node's list of pods is read, [updateGauges] publishes
    in the allocatable vector the capacity of the node if its allocatable
    is empty, and its allocatable otherwise: each resource of that list
    under the labels of the node and of the resource, with the value of
    its quantity, which is for cpu the thousandths of the quantity
    divided by 1000 and for any other resource the quantity in whole
    units. *)
Theorem allocatable_fallback prov cap rangeOrder gaugeOrder
    (kubeClient : Client) (node : Node) (c : Node.State) (items : list Pod) :
  rangeOrders rangeOrder ->
  gaugeOrder ≡ₚ Node.gaugeVecs ->
  ListPods kubeClient (MetaName (NodeMeta node)) = Ok items ->
  let after :=
    Node.allocatable
      (Node.Gauges (Node.updateGauges prov cap rangeOrder gaugeOrder kubeClient node c).2) in
  let value (name : string) (q : Quantity) : float :=
    if String.eqb name ResourceCPU
    then (float64 (Quantity_MilliValue q) / float64 1000)%float
    else float64 (Quantity_Value q) in
  (Allocatable (Status node) = ∅ ->
   forall name q,
     Capacity (Status node) !! name = Some q ->
     publishable prov cap node (Capacity (Status node)) name ->
     after !! Node.generateLabels prov cap node (Node.resourceTypeName name) =
     Some (value name q)) /\
  (Allocatable (Status node) <> ∅ ->
   forall name q,
     Allocatable (Status node) !! name = Some q ->
     publishable prov cap node (Allocatable (Status node)) name ->
     after !! Node.generateLabels prov cap node (Node.resourceTypeName name) =
     Some (value name q)).
Proof.
  intros Hr Hg Hl.
  destruct (updateGauges_vec prov cap rangeOrder gaugeOrder Hg kubeClient node c items
              Node.allocatableGaugeVec Hl) as [_ Hvec].
  simpl in Hvec. simpl. rewrite Hvec. clear Hvec.
  split; intros He name q Hq Hp.
  - rewrite decide_True by done.
    by rewrite (publish_range_lookup prov cap rangeOrder node _ _ name q).
  - rewrite decide_False by done.
    by rewrite (publish_range_lookup prov cap rangeOrder node _ _ name q).
Qed.



Lemma generateLabels_unlabelled prov cap prov' cap' (node : Node) (rtn : string) :
  MetaLabels (NodeMeta node) = ∅ ->
  Node.generateLabels prov cap node rtn = Node.generateLabels prov' cap' node rtn.
Proof. intros H. unfold Node.generateLabels. by rewrite H, !lookup_empty. Qed.

(** The series that one resource leaves in an empty vector. *)
Lemma publish_single prov cap rangeOrder (node : Node) (src : ResourceList)
    (name : string) (q : Z) (labels : Labels) (x : float)
    (v : GaugeVec) :
  rangeOrders rangeOrder ->
  src = {[ name := q ]} ->
  MetaLabels (NodeMeta node) = ∅ ->
  Node.generateLabels "" "" node (Node.resourceTypeName name) = labels ->
  validateLabels Node.labelNames labels = None ->
  Node.gaugeValue name q = x ->
  v = ∅ ->
  publishEntries prov cap node (rangeOrder src) v = {[ labels := x ]}.
Proof.
  intros Hr -> Hl <- Hv <- ->.
  rewrite (rangeOrder_small rangeOrder) by (done || by rewrite map_size_singleton).
  rewrite map_to_list_singleton. simpl.
  rewrite (generateLabels_unlabelled prov cap "" "") by done.
  unfold GetMetricWith. rewrite Hv, lookup_empty. unfold Gauge_Set.
  by rewrite insert_insert_eq.
Qed.

Lemma publish_none prov cap rangeOrder (node : Node) (src : ResourceList)
    (v : GaugeVec) :
  rangeOrders rangeOrder -> src = ∅ -> v = ∅ ->
  publishEntries prov cap node (rangeOrder src) v = ∅.
Proof.
  intros Hr -> ->.
  rewrite (rangeOrder_small rangeOrder) by (done || by rewrite map_size_empty).
  by rewrite map_to_list_empty.
Qed.


(** C6.  Reconciling node n1 (capacity cpu=4, allocatable cpu=3.8) with
    one running regular pod (request cpu=1, limit cpu=2) and one daemon
    pod (request cpu=0.2, no limit) succeeds and leaves exactly one cpu
    series in each of five vectors: system_overhead 0.2,
    total_pod_requests 1, total_pod_limits 2, total_daemon_requests 0.2
    and allocatable 3.8; total_daemon_limits has no series at all.  The
    value of a cpu series is the quantity in thousandths, as a float,
    divided by 1000. *)
Theorem scenario_n1 prov cap rangeOrder gaugeOrder :
  rangeOrders rangeOrder ->
  gaugeOrder ≡ₚ Node.gaugeVecs ->
  let out :=
    Node.Reconcile prov cap rangeOrder gaugeOrder
                   (cluster n1 [regularPod; daemonPod]) (nodeKey "n1")
                   Node.NewController in
  out.1 = None /\
  Node.Gauges out.2 =
    {| Node.allocatable := {[ cpuLabels "n1" := 3.8%float ]};
       Node.podRequests := {[ cpuLabels "n1" := 1%float ]};
       Node.podLimits := {[ cpuLabels "n1" := 2%float ]};
       Node.daemonRequests := {[ cpuLabels "n1" := 0.2%float ]};
       Node.daemonLimits := ∅;
       Node.overhead := {[ cpuLabels "n1" := 0.2%float ]} |} /\
  (forall q, Node.gaugeValue ResourceCPU q =
             (float64 (Quantity_MilliValue q) / float64 1000)%float).
Proof.
  intros Hr Hg.
  assert (GetNode (cluster n1 [regularPod; daemonPod]) (nodeKey "n1") = Ok n1)
    as Hnode by reflexivity.
  assert (ListPods (cluster n1 [regularPod; daemonPod]) (MetaName (NodeMeta n1)) =
          Ok [regularPod; daemonPod]) as Hpods by reflexivity.
  destruct (Reconcile_found prov cap rangeOrder gaugeOrder
              (cluster n1 [regularPod; daemonPod]) (nodeKey "n1") Node.NewController
              n1 [regularPod; daemonPod] Hg Hnode Hpods) as [Hres Hvec].
  split; [done|]. split; [|done].
  apply Registry_eq. intros g. rewrite Hvec.
  rewrite (resourceListFor_order rangeOrder map_to_list _ _ g Hr rangeOrders_map_to_list).
  destruct g; simpl Node.vec;
    [ apply (publish_single _ _ _ _ _ ResourceCPU (cores 3800))
    | apply (publish_single _ _ _ _ _ ResourceCPU (cores 1000))
    | apply (publish_single _ _ _ _ _ ResourceCPU (cores 2000))
    | apply (publish_single _ _ _ _ _ ResourceCPU (cores 200))
    | apply publish_none
    | apply (publish_single _ _ _ _ _ ResourceCPU (cores 200)) ];
    (done || (vm_compute; reflexivity)).
Qed.

(** ** The pod controller *)

Lemma NoDup_labelNames : NoDup Node.labelNames.
Proof. by apply (bool_decide_unpack _). Qed.

Lemma NoDup_getLabelNames : NoDup Pod.getLabelNames.
Proof. by apply (bool_decide_unpack _). Qed.

Lemma validateLabels_dom (names : list string) (labels : Labels) :
  NoDup names ->
  dom labels = list_to_set names ->
  (forall k v, labels !! k = Some v -> utf8_ValidString v = true) ->
  validateLabels names labels = None.
Proof.
  intros Hnd Hdom Hv. apply validateLabels_None. repeat split; [|done|].
  - by rewrite <- size_dom, Hdom, size_list_to_set.
  - intros n Hn. apply elem_of_dom. rewrite Hdom. by apply elem_of_list_to_set.
Qed.

Lemma resourceTypeName_byte (c : ascii) :
  let c' := if Ascii.eqb (lower_byte c) "-" then "_"%char else lower_byte c in
  c' <> "-"%char /\ in_range 65 90 (N_of_ascii c') = false.
Proof. by destruct c as [[] [] [] [] [] [] [] []]. Qed.

Lemma string_map_compose (f g : ascii -> ascii) (s : string) :
  string_map g (string_map f s) = string_map (fun c => g (f c)) s.
Proof. induction s as [|c s IH]; simpl; [done|]. by rewrite IH. Qed.

Lemma string_map_elem (f : ascii -> ascii) (s : string) (c : ascii) :
  c ∈ list_ascii_of_string (string_map f s) ->
  exists c0, c0 ∈ list_ascii_of_string s /\ c = f c0.
Proof.
  induction s as [|c0 s IH]; simpl.
  - by intros ?%not_elem_of_nil.
  - intros [->|Hin]%elem_of_cons.
    + exists c0. split; [left|done].
    + destruct (IH Hin) as (c1 & ? & ?). exists c1. split; [by right|done].
Qed.

Section pod_facts.
Variable ProvisionerNameLabelKey : string.
Variable LabelCapacityType : string.
Variable json_Marshal : Labels -> result string.

Local Abbreviation generateLabels :=
  (Pod.generateLabels ProvisionerNameLabelKey LabelCapacityType json_Marshal).
Local Abbreviation Reconcile :=
  (Pod.Reconcile ProvisionerNameLabelKey LabelCapacityType json_Marshal).

Lemma pod_generateLabels_dom (kubeClient : Client) (pod : Pod) (labels : Labels) :
  generateLabels kubeClient pod = Ok labels ->
  dom labels = list_to_set Pod.getLabelNames.
Proof.
  unfold Pod.generateLabels, Pod.getLabelNames.
  destruct (json_Marshal _); [|done]. intros [= <-].
  repeat case_match; rewrite !dom_insert_L, dom_empty_L; simpl; set_solver.
Qed.

Lemma pod_generateLabels_error (kubeClient : Client) (pod : Pod) (err : error) :
  generateLabels kubeClient pod = Err err ->
  exists e, json_Marshal (MetaLabels (PodMeta pod)) = Err e /\
            err = ErrWrap "marshal pod labels" e.
Proof.
  unfold Pod.generateLabels. destruct (json_Marshal _) as [js|e]; [done|].
  intros [= <-]. by exists e.
Qed.

Lemma pod_generateLabels_total (kubeClient : Client) (pod : Pod) (js : string) :
  json_Marshal (MetaLabels (PodMeta pod)) = Ok js ->
  exists labels, generateLabels kubeClient pod = Ok labels /\
                 labels !! Pod.podLabels = Some js.
Proof.
  intros H. unfold Pod.generateLabels. rewrite H.
  eexists. split; [done|]. apply lookup_insert_eq.
Qed.

(** The host labels of a pod whose node cannot be fetched. *)
Lemma pod_generateLabels_no_node (kubeClient : Client) (pod : Pod) (labels : Labels)
    (err : error) :
  GetNode kubeClient (nodeKey (NodeName (Spec pod))) = Err err ->
  generateLabels kubeClient pod = Ok labels ->
  labels !! Pod.podHostZone = Some EmptyString /\
  labels !! Pod.podHostArchitecture = Some EmptyString /\
  labels !! Pod.podHostCapacityType = Some EmptyString /\
  labels !! Pod.podHostInstanceType = Some EmptyString /\
  labels !! Pod.podProvisioner =
    Some (label (NodeSelector (Spec pod)) ProvisionerNameLabelKey).
Proof.
  unfold Pod.generateLabels, nodeKey, label. intros ->.
  destruct (json_Marshal _); [|done]. intros [= <-].
  by destruct (NodeSelector (Spec pod) !! ProvisionerNameLabelKey).
Qed.

(** The host labels of a pod whose node is fetched: a label the node
    does not have is the empty string. *)
Lemma pod_generateLabels_node (kubeClient : Client) (pod : Pod) (labels : Labels)
    (node : Node) :
  GetNode kubeClient (nodeKey (NodeName (Spec pod))) = Ok node ->
  generateLabels kubeClient pod = Ok labels ->
  labels !! Pod.podHostZone = Some (label (MetaLabels (NodeMeta node)) LabelTopologyZone) /\
  labels !! Pod.podHostArchitecture =
    Some (label (MetaLabels (NodeMeta node)) LabelArchStable) /\
  labels !! Pod.podHostCapacityType =
    Some (label (MetaLabels (NodeMeta node)) LabelCapacityType) /\
  labels !! Pod.podHostInstanceType =
    Some (label (MetaLabels (NodeMeta node)) LabelInstanceTypeStable) /\
  labels !! Pod.podProvisioner =
    Some (label (MetaLabels (NodeMeta node)) ProvisionerNameLabelKey).
Proof.
  unfold Pod.generateLabels, nodeKey. intros ->.
  destruct (json_Marshal _); [|done]. by intros [= <-].
Qed.

Lemma pod_Reconcile_found (kubeClient : Client) (req : NamespacedName) (c : Pod.State)
    (pod : Pod) (labels : Labels) :
  GetPod kubeClient req = Ok pod ->
  generateLabels kubeClient pod = Ok labels ->
  validateLabels Pod.getLabelNames labels = None ->
  Reconcile kubeClient req c =
  (None, {| Pod.LabelsMap := <[req := labels]> (Pod.LabelsMap c);
            Pod.podGaugeVec :=
              <[labels := 1%float]> (Pod.podGaugeVec (Pod.deleteGauge req c)) |}).
Proof.
  intros Hp Hl Hv. unfold Pod.Reconcile. rewrite Hp, Hl.
  destruct (GetMetricWith_Set Pod.getLabelNames labels
              (Pod.podGaugeVec (Pod.deleteGauge req c)) (float64 1) Hv)
    as (series & -> & ->).
  assert (Pod.LabelsMap (Pod.deleteGauge req c) = Pod.LabelsMap c) as ->
    by (unfold Pod.deleteGauge; by destruct (Pod.LabelsMap c !! req)).
  reflexivity.
Qed.

(** C8.  When the pod of the request is found, its node cannot be
    fetched, the pod's labels are encoded and the label values are valid
    UTF-8, the reconciliation returns no error: the labels have an empty
    zone, arch, capacity_type and instance_type, the provisioner is the
    pod's node-selector hint (empty when there is none), the state gauge
    of these labels is set to 1 and the labels are recorded for the
    pod. *)
Theorem pod_without_node (kubeClient : Client) (req : NamespacedName) (c : Pod.State)
    (pod : Pod) (err : error) (js : string) :
  GetPod kubeClient req = Ok pod ->
  GetNode kubeClient (nodeKey (NodeName (Spec pod))) = Err err ->
  json_Marshal (MetaLabels (PodMeta pod)) = Ok js ->
  (forall labels k v,
     generateLabels kubeClient pod = Ok labels -> labels !! k = Some v ->
     utf8_ValidString v = true) ->
  let out := Reconcile kubeClient req c in
  exists labels,
    generateLabels kubeClient pod = Ok labels /\
    out.1 = None /\
    labels !! Pod.podHostZone = Some EmptyString /\
    labels !! Pod.podHostArchitecture = Some EmptyString /\
    labels !! Pod.podHostCapacityType = Some EmptyString /\
    labels !! Pod.podHostInstanceType = Some EmptyString /\
    labels !! Pod.podProvisioner =
      Some (default EmptyString (NodeSelector (Spec pod) !! ProvisionerNameLabelKey)) /\
    Pod.podGaugeVec out.2 !! labels = Some 1%float /\
    Pod.LabelsMap out.2 !! req = Some labels.
Proof.
  intros Hp Hn Hj Hv. simpl.
  destruct (pod_generateLabels_total kubeClient pod js Hj) as (labels & Hl & _).
  exists labels. split; [done|].
  rewrite (pod_Reconcile_found kubeClient req c pod labels Hp Hl).
  - destruct (pod_generateLabels_no_node kubeClient pod labels err Hn Hl)
      as (? & ? & ? & ? & ?).
    simpl. repeat split; try done; by rewrite lookup_insert_eq.
  - apply validateLabels_dom; [apply NoDup_getLabelNames| |by eauto].
    by eapply pod_generateLabels_dom.
Qed.

End pod_facts.

(** ** The label projectors and failed reconciliations *)



(** * Examples *)

Lemma generateLabels_cpu (name : string) (capacity allocatable : ResourceList) :
  Node.generateLabels exampleProvisionerKey exampleCapacityKey
    (exampleNode name capacity allocatable) (Node.resourceTypeName ResourceCPU) =
  cpuLabels name.
Proof.
  apply map_eq. intros k. unfold Node.generateLabels, cpuLabels. simpl.
  rewrite !lookup_empty. reflexivity.
Qed.

Lemma publishable_cpu (name : string) (capacity allocatable : ResourceList) (q : Z) :
  utf8_ValidString name = true ->
  publishable exampleProvisionerKey exampleCapacityKey
    (exampleNode name capacity allocatable) {[ ResourceCPU := q ]} ResourceCPU.
Proof.
  intros Hname. split.
  - intros name' [x [<- _]%lookup_singleton_Some].
    apply validateLabels_dom; [apply NoDup_labelNames|apply generateLabels_dom|].
    rewrite generateLabels_cpu. unfold cpuLabels. simpl. intros k v Hkv.
    repeat (apply lookup_insert_Some in Hkv as [[_ <-]|[_ Hkv]]; [done|]).
    by rewrite lookup_empty in Hkv.
  - by intros name' [x [<- _]%lookup_singleton_Some] _.
Qed.



(** C3.  A pod with a cpu request and limit of 1, and a pod with a cpu
    request of 0.5, no limit and an overhead of 0.1, neither of them
    terminal: the requests are 1.6 in both orders, but the limits are 1.1
    when the pod with the limit is counted first and 1 when it is counted
    second. *)
Lemma limits_depend_on_order :
  [cappedPod; sandboxedPod] ≡ₚ [sandboxedPod; cappedPod] /\
  IsTerminal cappedPod = false /\
  IsTerminal sandboxedPod = false /\
  (Node.getPodsTotalRequestsAndLimits map_to_list [cappedPod; sandboxedPod]).1
    !! ResourceCPU = Some (cores 1600) /\
  (Node.getPodsTotalRequestsAndLimits map_to_list [sandboxedPod; cappedPod]).1
    !! ResourceCPU = Some (cores 1600) /\
  (Node.getPodsTotalRequestsAndLimits map_to_list [cappedPod; sandboxedPod]).2
    !! ResourceCPU = Some (cores 1100) /\
  (Node.getPodsTotalRequestsAndLimits map_to_list [sandboxedPod; cappedPod]).2
    !! ResourceCPU = Some (cores 1000).
Proof. split; [apply perm_swap|]. repeat apply conj; reflexivity. Qed.

Lemma nonNegative_singleton (name : string) (q : Z) :
  0 <= q -> nonNegative {[ name := q ]}.
Proof. by intros Hq name' q' [_ <-]%lookup_singleton_Some. Qed.

Lemma nonNegative_empty : nonNegative ∅.
Proof. intros name q H. by rewrite lookup_empty in H. Qed.


(** The requests of two pods, one of them with overhead, in both
    orders. *)
Lemma aggregator_permutation_witness :
  rangeOrders map_to_list /\
  [regularPod; overheadPod] ≡ₚ [overheadPod; regularPod] /\
  (Node.getPodsTotalRequestsAndLimits map_to_list [regularPod; overheadPod]).1 =
  (Node.getPodsTotalRequestsAndLimits map_to_list [overheadPod; regularPod]).1.
Proof.
  split; [apply rangeOrders_map_to_list|]. split; [apply perm_swap|].
  apply (aggregator_permutation map_to_list rangeOrders_map_to_list
           [regularPod; overheadPod] [overheadPod; regularPod] (perm_swap _ _ _)).
Defined.

(** C4, witness: an overhead of 0.1 counted after a limit of 1. *)
Lemma overhead_rule_witness :
  rangeOrders map_to_list /\
  Forall nonNegativeLimits [cappedPod] /\
  nonNegativeLimits sandboxedPod /\
  IsTerminal sandboxedPod = false /\
  (Node.getPodsTotalRequestsAndLimits map_to_list ([cappedPod] ++ [sandboxedPod])).2
    !! ResourceCPU = Some (cores 1000 + cores 100).
Proof.
  assert (nonNegativeLimits cappedPod) as Hcapped.
  { split; [|done]. apply Forall_cons_2; [|apply Forall_nil_2].
    by apply nonNegative_singleton. }
  assert (nonNegativeLimits sandboxedPod) as Hsandboxed.
  { split; [apply Forall_cons_2; [apply nonNegative_empty|apply Forall_nil_2]|].
    intros podOverhead [= <-]. by apply nonNegative_singleton. }
  split; [apply rangeOrders_map_to_list|].
  split; [apply Forall_cons_2; [exact Hcapped|apply Forall_nil_2]|].
  split; [exact Hsandboxed|]. split; [reflexivity|].
  destruct (overhead_rule map_to_list rangeOrders_map_to_list [cappedPod] sandboxedPod
              ResourceCPU (Forall_cons_2 _ _ _ Hcapped (Forall_nil_2 _)) Hsandboxed)
    as [_ H].
  destruct (H eq_refl) as (_ & _ & _ & Hadd & _).
  apply (Hadd (cores 1000)); reflexivity.
Defined.

(** C5, witness: n1 has five recorded tuples and is then gone. *)
Lemma deleted_node_leaves_no_series_witness :
  reachable exampleProvisionerKey exampleCapacityKey afterN1 /\
  GetNode emptyCluster (nodeKey "n1") = Err ErrNotFound /\
  Node.LabelSliceMap afterN1 !! nodeKey "n1" = Some (replicate 5 (cpuLabels "n1")) /\
  let out :=
    Node.Reconcile exampleProvisionerKey exampleCapacityKey map_to_list Node.gaugeVecs
                   emptyCluster (nodeKey "n1") afterN1 in
  out.1 = None /\
  Node.LabelSliceMap out.2 !! nodeKey "n1" = Some [] /\
  (forall g labels x,
     Node.vec g (Node.Gauges out.2) !! labels = Some x ->
     labels !! Node.nodeName <> Some "n1"%string).
Proof.
  assert (reachable exampleProvisionerKey exampleCapacityKey afterN1) as Hr.
  { apply reachable_Reconcile;
      [apply rangeOrders_map_to_list|reflexivity|apply reachable_NewController]. }
  split; [exact Hr|]. split; [reflexivity|]. split; [reflexivity|].
  destruct (deleted_node_leaves_no_series exampleProvisionerKey exampleCapacityKey
              map_to_list Node.gaugeVecs emptyCluster "n1" afterN1 ErrNotFound
              Hr eq_refl eq_refl) as (H1 & H2 & _ & H4).
  split; [exact H1|]. split; [exact H2|exact H4].
Defined.

(** C6, witness: the scenario with the maps visited in key order. *)
Lemma scenario_n1_witness :
  rangeOrders map_to_list /\
  Node.gaugeVecs ≡ₚ Node.gaugeVecs /\
  Node.daemonLimits (Node.Gauges afterN1) = ∅ /\
  Node.allocatable (Node.Gauges afterN1) = {[ cpuLabels "n1" := 3.8%float ]}.
Proof.
  split; [apply rangeOrders_map_to_list|]. split; [reflexivity|].
  destruct (scenario_n1 exampleProvisionerKey exampleCapacityKey map_to_list
              Node.gaugeVecs rangeOrders_map_to_list (Permutation_refl _))
    as (_ & H & _).
  unfold afterN1. rewrite H. split; reflexivity.
Defined.

(** C8, witness: a pod scheduled on a node that is gone. *)
Lemma pod_without_node_witness :
  let kubeClient := cluster n1 [orphanPod] in
  let req := {| Namespace := "default"; Name := "web" |} in
  GetPod kubeClient req = Ok orphanPod /\
  GetNode kubeClient (nodeKey "gone") = Err ErrNotFound /\
  exists labels,
    Pod.generateLabels exampleProvisionerKey exampleCapacityKey exampleMarshal
      kubeClient orphanPod = Ok labels /\
    (Pod.Reconcile exampleProvisionerKey exampleCapacityKey exampleMarshal
       kubeClient req Pod.NewController).1 = None /\
    labels !! Pod.podHostZone = Some EmptyString /\
    labels !! Pod.podProvisioner = Some EmptyString.
Proof.
  simpl. split; [reflexivity|]. split; [reflexivity|].
  destruct (pod_without_node exampleProvisionerKey exampleCapacityKey exampleMarshal
              (cluster n1 [orphanPod]) {| Namespace := "default"; Name := "web" |}
              Pod.NewController orphanPod ErrNotFound "{}" eq_refl eq_refl eq_refl)
    as (labels & Hl & Hres & Hz & _ & _ & _ & Hp & _).
  - intros labels k v [= <-] Hkv.
    repeat (apply lookup_insert_Some in Hkv as [[_ <-]|[_ Hkv]]; [done|]).
    by rewrite lookup_empty in Hkv.
  - exists labels. by repeat split.
Defined.

(** C10, witness: a node without allocatable publishes its capacity. *)
Lemma allocatable_fallback_witness :
  rangeOrders map_to_list /\
  Node.gaugeVecs ≡ₚ Node.gaugeVecs /\
  Allocatable (Status bare) = ∅ /\
  Capacity (Status bare) !! ResourceCPU = Some (cores 4000) /\
  Node.allocatable
    (Node.Gauges
       (Node.updateGauges exampleProvisionerKey exampleCapacityKey map_to_list
          Node.gaugeVecs (cluster bare []) bare Node.NewController).2)
    !! cpuLabels "n3" = Some 4%float.
Proof.
  split; [apply rangeOrders_map_to_list|]. split; [reflexivity|].
  split; [reflexivity|]. split; [reflexivity|].
  destruct (allocatable_fallback exampleProvisionerKey exampleCapacityKey map_to_list
              Node.gaugeVecs (cluster bare []) bare Node.NewController []
              rangeOrders_map_to_list (Permutation_refl _) eq_refl) as [H _].
  apply (H eq_refl ResourceCPU (cores 4000) eq_refl).
  apply publishable_cpu. reflexivity.
Defined.

(** * The node controller from one reconciliation to the next *)

Lemma SliceNames_NewController : SliceNames Node.NewController.
Proof. intros key slice labels H. simpl in H. by rewrite lookup_empty in H. Qed.

Lemma deleteGauges_SliceNames (key : NamespacedName) (c : Node.State) :
  SliceNames c -> SliceNames (Node.deleteGauges key c).
Proof.
  intros HS k slice labels H Hin. unfold Node.deleteGauges in H; simpl in H.
  destruct (decide (k = key)) as [->|Hne].
  - rewrite lookup_insert_eq in H. injection H as <-. by apply not_elem_of_nil in Hin.
  - rewrite lookup_insert_ne in H by done. by eapply HS.
Qed.

Section node_isolation.
Variable ProvisionerNameLabelKey : string.
Variable LabelCapacityType : string.
Variable rangeOrder : ResourceList -> list (string * Quantity).
Variable gaugeOrder : list Node.gauge.

Local Abbreviation generateLabels :=
  (Node.generateLabels ProvisionerNameLabelKey LabelCapacityType).
Local Abbreviation insertGaugeValue :=
  (Node.insertGaugeValue ProvisionerNameLabelKey LabelCapacityType).
Local Abbreviation insertEntries :=
  (Node.insertEntries ProvisionerNameLabelKey LabelCapacityType).
Local Abbreviation insertGaugeValues :=
  (Node.insertGaugeValues ProvisionerNameLabelKey LabelCapacityType rangeOrder).
Local Abbreviation updateGauges :=
  (Node.updateGauges ProvisionerNameLabelKey LabelCapacityType rangeOrder gaugeOrder).
Local Abbreviation Reconcile :=
  (Node.Reconcile ProvisionerNameLabelKey LabelCapacityType rangeOrder gaugeOrder).

(** A property of states that every step of [insertGaugeValues] keeps is
    kept by [updateGauges]. *)
Lemma updateGauges_keeps (P : Node.State -> Prop) (kubeClient : Client) (node : Node)
    (c : Node.State) :
  (forall g c entry, P c -> P (insertGaugeValue node g c entry).2) ->
  P c -> P (updateGauges kubeClient node c).2.
Proof.
  intros Hstep HP. unfold Node.updateGauges.
  destruct (ListPods kubeClient _) as [items|err]; [|done].
  destruct (Node.getPodsTotalRequestsAndLimits _ (filter _ items)) as [podRequest podLimits].
  destruct (Node.getPodsTotalRequestsAndLimits _ (filter _ items))
    as [daemonRequest daemonLimits].
  simpl. generalize gaugeOrder as order. intros order.
  revert c HP. induction order as [|g0 gs IH]; intros c HP; simpl; [done|].
  apply IH. unfold Node.insertGaugeValues.
  generalize (rangeOrder
    match g0 with
    | Node.allocatableGaugeVec =>
      if (0 <? size (Allocatable (Status node)))%nat
      then Allocatable (Status node) else Capacity (Status node)
    | Node.podRequestsGaugeVec => podRequest
    | Node.podLimitsGaugeVec => podLimits
    | Node.daemonRequestsGaugeVec => daemonRequest
    | Node.daemonLimitsGaugeVec => daemonLimits
    | Node.overheadGaugeVec => Node.getSystemOverhead rangeOrder node
    end) as entries.
  intros entries. revert c HP.
  induction entries as [|entry rest IHe]; intros c HP; simpl; [done|].
  pose proof (Hstep g0 c entry HP) as H1.
  destruct (insertGaugeValue node g0 c entry) as [[err|] c']; simpl in *; [done|].
  by apply IHe.
Qed.

Lemma insertGaugeValue_SliceNames (node : Node) (g : Node.gauge) (c : Node.State)
    (entry : string * Z) :
  SliceNames c -> SliceNames (insertGaugeValue node g c entry).2.
Proof.
  intros HS. destruct entry as [name q]. unfold Node.insertGaugeValue.
  set (labels := generateLabels node (Node.resourceTypeName name)).
  set (key := {| Namespace := ""; Name := MetaName (NodeMeta node) |}).
  assert (forall r, SliceNames
            {| Node.LabelSliceMap :=
                 <[key := default [] (Node.LabelSliceMap c !! key) ++ [labels]]>
                   (Node.LabelSliceMap c);
               Node.Gauges := r |}) as H.
  { intros r k slice l Hk Hin. simpl in Hk.
    destruct (decide (k = key)) as [->|Hne].
    - rewrite lookup_insert_eq in Hk. injection Hk as <-.
      apply elem_of_app in Hin as [Hin|Hin%list_elem_of_singleton].
      + destruct (Node.LabelSliceMap c !! key) as [old|] eqn:E; simpl in Hin.
        * by eapply HS.
        * by apply not_elem_of_nil in Hin.
      + subst l. unfold label, labels. by rewrite generateLabels_nodeName.
    - rewrite lookup_insert_ne in Hk by done. by eapply HS. }
  destruct (GetMetricWith _ _ _); apply H.
Qed.

Lemma Reconcile_SliceNames (kubeClient : Client) (req : NamespacedName) (c : Node.State) :
  SliceNames c -> SliceNames (Reconcile kubeClient req c).2.
Proof.
  intros HS. unfold Node.Reconcile.
  pose proof (deleteGauges_SliceNames req c HS) as H1.
  destruct (GetNode kubeClient req) as [node|err].
  - pose proof (updateGauges_keeps SliceNames kubeClient node _
                  (fun g c e => insertGaugeValue_SliceNames node g c e) H1) as H2.
    by destruct (updateGauges kubeClient node _) as [[?|] ?].
  - by destruct (errors_IsNotFound err).
Qed.

(** [insertGaugeValues] leaves the series of other nodes, and the slices
    of other nodes, as they are. *)
Lemma insertGaugeValue_frame (node : Node) (g g' : Node.gauge) (c : Node.State)
    (entry : string * Z) (labels : Labels) :
  label labels Node.nodeName <> MetaName (NodeMeta node) ->
  Node.vec g' (Node.Gauges (insertGaugeValue node g c entry).2) !! labels =
  Node.vec g' (Node.Gauges c) !! labels.
Proof.
  intros Hne. destruct entry as [name q]. unfold Node.insertGaugeValue.
  assert (generateLabels node (Node.resourceTypeName name) <> labels) as Hl.
  { intros <-. apply Hne. unfold label. by rewrite generateLabels_nodeName. }
  unfold GetMetricWith. destruct (validateLabels _ _); simpl; [done|].
  rewrite vec_setVec. case_decide; [subst g'|done].
  unfold Gauge_Set. rewrite lookup_insert_ne by done.
  destruct (Node.vec g (Node.Gauges c) !! _); [done|]. by rewrite lookup_insert_ne.
Qed.

Lemma insertGaugeValue_slices (node : Node) (g : Node.gauge) (c : Node.State)
    (entry : string * Z) (key : NamespacedName) :
  key <> nodeKey (MetaName (NodeMeta node)) ->
  Node.LabelSliceMap (insertGaugeValue node g c entry).2 !! key =
  Node.LabelSliceMap c !! key.
Proof.
  intros Hne. destruct entry as [name q]. unfold Node.insertGaugeValue.
  destruct (GetMetricWith _ _ _); simpl; by rewrite lookup_insert_ne.
Qed.

Lemma updateGauges_frame (kubeClient : Client) (node : Node) (c : Node.State)
    (g : Node.gauge) (labels : Labels) :
  label labels Node.nodeName <> MetaName (NodeMeta node) ->
  Node.vec g (Node.Gauges (updateGauges kubeClient node c).2) !! labels =
  Node.vec g (Node.Gauges c) !! labels.
Proof.
  intros Hne.
  apply (updateGauges_keeps
           (fun c' => Node.vec g (Node.Gauges c') !! labels =
                      Node.vec g (Node.Gauges c) !! labels)); [|done].
  intros g0 c0 entry <-. by apply insertGaugeValue_frame.
Qed.

Lemma updateGauges_slices (kubeClient : Client) (node : Node) (c : Node.State)
    (key : NamespacedName) :
  key <> nodeKey (MetaName (NodeMeta node)) ->
  Node.LabelSliceMap (updateGauges kubeClient node c).2 !! key =
  Node.LabelSliceMap c !! key.
Proof.
  intros Hne.
  apply (updateGauges_keeps
           (fun c' => Node.LabelSliceMap c' !! key = Node.LabelSliceMap c !! key)); [|done].
  intros g0 c0 entry <-. by apply insertGaugeValue_slices.
Qed.

(** After [deleteGauges], no series names the node of the key, and the
    series of the other nodes are as before. *)
Lemma deleteGauges_vec_lookup (key : NamespacedName) (c : Node.State) (g : Node.gauge)
    (labels : Labels) :
  Tracking c -> SliceNames c ->
  Node.vec g (Node.Gauges (Node.deleteGauges key c)) !! labels =
  if decide (nodeKey (label labels Node.nodeName) = key) then None
  else Node.vec g (Node.Gauges c) !! labels.
Proof.
  intros HT HS. case_decide as Hk.
  - destruct (Node.vec g _ !! labels) as [x|] eqn:E; [|done]. exfalso.
    destruct (deleteGauges_Tracking key c HT _ _ _ E) as [_ (slice & Hs & Hin)].
    rewrite Hk in Hs. unfold Node.deleteGauges in Hs; simpl in Hs.
    rewrite lookup_insert_eq in Hs. injection Hs as <-.
    by apply not_elem_of_nil in Hin.
  - unfold Node.deleteGauges; simpl.
    destruct (Node.LabelSliceMap c !! key) as [slice|] eqn:E; [|done].
    apply deleteSlice_other. intros Hin. apply Hk. symmetry. by eapply HS.
Qed.

End node_isolation.


Lemma reachable_SliceNames (prov cap : string) (c : Node.State) :
  reachable prov cap c -> SliceNames c.
Proof.
  induction 1 as [|rangeOrder gaugeOrder kubeClient req c _ _ _ IH].
  - apply SliceNames_NewController.
  - by apply Reconcile_SliceNames.
Qed.

Lemma State_eq (c c' : Node.State) :
  Node.LabelSliceMap c = Node.LabelSliceMap c' ->
  (forall g labels, Node.vec g (Node.Gauges c) !! labels =
                    Node.vec g (Node.Gauges c') !! labels) ->
  c = c'.
Proof.
  destruct c as [s r], c' as [s' r']; simpl. intros -> H. f_equal.
  apply Registry_eq. intros g. apply map_eq. apply H.
Qed.

Lemma concat_map_Permutation {A B} (f f' : A -> list B) (l l' : list A) :
  l ≡ₚ l' -> (forall x, f x ≡ₚ f' x) ->
  concat (map f l) ≡ₚ concat (map f' l').
Proof.
  intros Hl Hf.
  assert (forall k, concat (map f k) ≡ₚ concat (map f' k)) as Hsame.
  { intros k. induction k as [|z k IH]; simpl; [done|]. by rewrite IH, (Hf z). }
  induction Hl as [|x l l' _ IH|x y l|l l' l'' _ IH1 _ IH2]; simpl.
  - done.
  - by rewrite IH, (Hf x).
  - rewrite !app_assoc, (Hsame l), (Hf x), (Hf y).
    f_equiv. apply Permutation_app_comm.
  - by rewrite IH1, <- IH2, (Hsame l').
Qed.

Section node_orders.
Variable ProvisionerNameLabelKey : string.
Variable LabelCapacityType : string.

Local Abbreviation generateLabels :=
  (Node.generateLabels ProvisionerNameLabelKey LabelCapacityType).
Local Abbreviation insertGaugeValue :=
  (Node.insertGaugeValue ProvisionerNameLabelKey LabelCapacityType).
Local Abbreviation insertEntries :=
  (Node.insertEntries ProvisionerNameLabelKey LabelCapacityType).
Local Abbreviation publishEntries :=
  (publishEntries ProvisionerNameLabelKey LabelCapacityType).
Local Abbreviation collisionFree :=
  (collisionFree ProvisionerNameLabelKey LabelCapacityType).

(** The labels that [insertGaugeValues] records for an entry. *)
Local Abbreviation labelsOf node :=
  (fun entry : string * Quantity => generateLabels node (Node.resourceTypeName entry.1)).

(** Two enumerations of a resource list without collisions publish the
    same series. *)
Lemma publishEntries_order (node : Node) (src : ResourceList)
    (entries entries' : list (string * Z)) (v : GaugeVec) :
  entries ≡ₚ map_to_list src -> entries' ≡ₚ map_to_list src ->
  collisionFree node src ->
  publishEntries node entries v = publishEntries node entries' v.
Proof.
  intros He He' Hfree. apply map_eq. intros labels.
  assert (forall l, l ≡ₚ map_to_list src ->
            publishEntries node l v !! labels =
            match list_find (fun entry => labelsOf node entry = labels) (map_to_list src) with
            | Some (_, (name, q)) => Some (Node.gaugeValue name q)
            | None => v !! labels
            end) as H.
  { intros l Hl.
    assert (forall n x, (n, x) ∈ l <-> src !! n = Some x) as Hin
      by (intros n x; rewrite Hl; apply elem_of_map_to_list).
    destruct (list_find _ (map_to_list src)) as [[i [name q]]|] eqn:E.
    - apply list_find_Some in E as (Hi & <- & _). simpl.
      apply list_elem_of_lookup_2, elem_of_map_to_list in Hi.
      destruct (Hfree name (ex_intro _ q Hi)) as [Hacc Huniq].
      apply publishEntries_lookup.
      + intros n x Hnx%Hin. by apply Hacc.
      + intros n x Hnx%Hin Heq. assert (n = name) as -> by (by apply Huniq).
        congruence.
      + by apply Hin.
    - apply publishEntries_other. intros n x Hnx%Hin Heq.
      apply list_find_None in E. rewrite Forall_forall in E.
      apply (E (n, x)); [by apply elem_of_map_to_list|done]. }
  by rewrite (H entries He), (H entries' He').
Qed.

(** With labels that the vector accepts, [insertGaugeValues] returns no
    error and appends the labels of the entries, in their order, to the
    slice of the node. *)
Lemma insertEntries_slice (node : Node) (g : Node.gauge) (entries : list (string * Z))
    (c : Node.State) (old : list Labels) :
  (forall name q, (name, q) ∈ entries ->
     validateLabels Node.labelNames (generateLabels node (Node.resourceTypeName name))
       = None) ->
  Node.LabelSliceMap c !! nodeKey (MetaName (NodeMeta node)) = Some old ->
  Node.LabelSliceMap (insertEntries node g entries c).2
    !! nodeKey (MetaName (NodeMeta node)) =
  Some (old ++ map (labelsOf node) entries).
Proof.
  revert c old. induction entries as [|[name q] rest IH]; intros c old Hv Hold; simpl.
  - by rewrite app_nil_r.
  - unfold GetMetricWith. rewrite (Hv name q) by left. simpl.
    rewrite (IH _ (old ++ [generateLabels node (Node.resourceTypeName name)])).
    + by rewrite <- app_assoc.
    + intros n x ?. apply (Hv n x). by right.
    + simpl. unfold nodeKey in *. rewrite Hold. simpl. apply lookup_insert_eq.
Qed.

Lemma insertAll_slice (rangeOrder : ResourceList -> list (string * Quantity))
    (node : Node) (resourceList : Node.gauge -> ResourceList)
    (order : list Node.gauge) (c : Node.State) (old : list Labels) :
  rangeOrders rangeOrder ->
  (forall g, collisionFree node (resourceList g)) ->
  Node.LabelSliceMap c !! nodeKey (MetaName (NodeMeta node)) = Some old ->
  Node.LabelSliceMap
    (foldl (fun c gaugeVec =>
              (Node.insertGaugeValues ProvisionerNameLabelKey LabelCapacityType rangeOrder
                 (resourceList gaugeVec) node gaugeVec c).2) c order)
    !! nodeKey (MetaName (NodeMeta node)) =
  Some (old ++ concat (map (fun g => map (labelsOf node) (rangeOrder (resourceList g)))
                           order)).
Proof.
  intros Hro Hfree. revert c old.
  induction order as [|g gs IH]; intros c old Hold; simpl.
  - by rewrite app_nil_r.
  - rewrite (IH _ (old ++ map (labelsOf node) (rangeOrder (resourceList g)))).
    + by rewrite <- app_assoc.
    + unfold Node.insertGaugeValues. apply insertEntries_slice; [|done].
      intros name q Hin. rewrite (Hro _) in Hin. apply elem_of_map_to_list in Hin.
      by apply (Hfree g name (ex_intro _ q Hin)).
Qed.

Lemma updateGauges_slice (rangeOrder : ResourceList -> list (string * Quantity))
    (gaugeOrder : list Node.gauge) (kubeClient : Client) (node : Node) (c : Node.State)
    (items : list Pod) (old : list Labels) :
  rangeOrders rangeOrder ->
  ListPods kubeClient (MetaName (NodeMeta node)) = Ok items ->
  (forall g, collisionFree node (resourceListFor rangeOrder node items g)) ->
  Node.LabelSliceMap c !! nodeKey (MetaName (NodeMeta node)) = Some old ->
  Node.LabelSliceMap
    (Node.updateGauges ProvisionerNameLabelKey LabelCapacityType rangeOrder gaugeOrder
       kubeClient node c).2 !! nodeKey (MetaName (NodeMeta node)) =
  Some (old ++
        concat (map (fun g => map (labelsOf node)
                                  (rangeOrder (resourceListFor rangeOrder node items g)))
                    gaugeOrder)).
Proof.
  intros Hro Hl Hfree Hold. unfold Node.updateGauges. rewrite Hl.
  assert (forall g,
            resourceListFor rangeOrder node items g =
            match g with
            | Node.allocatableGaugeVec =>
              if (0 <? size (Allocatable (Status node)))%nat
              then Allocatable (Status node) else Capacity (Status node)
            | Node.podRequestsGaugeVec =>
              (Node.getPodsTotalRequestsAndLimits rangeOrder
                 (filter (fun p => IsOwnedByDaemonSet p <> true) items)).1
            | Node.podLimitsGaugeVec =>
              (Node.getPodsTotalRequestsAndLimits rangeOrder
                 (filter (fun p => IsOwnedByDaemonSet p <> true) items)).2
            | Node.daemonRequestsGaugeVec =>
              (Node.getPodsTotalRequestsAndLimits rangeOrder
                 (filter (fun p => IsOwnedByDaemonSet p = true) items)).1
            | Node.daemonLimitsGaugeVec =>
              (Node.getPodsTotalRequestsAndLimits rangeOrder
                 (filter (fun p => IsOwnedByDaemonSet p = true) items)).2
            | Node.overheadGaugeVec => Node.getSystemOverhead rangeOrder node
            end) as Hlist.
  { intros g. unfold resourceListFor. rewrite size_pos_nonempty.
    destruct g; try done. by case_decide. }
  revert Hlist.
  destruct (Node.getPodsTotalRequestsAndLimits _ (filter _ items)) as [podRequest podLimits].
  destruct (Node.getPodsTotalRequestsAndLimits _ (filter _ items))
    as [daemonRequest daemonLimits].
  simpl. intros Hlist.
  rewrite (insertAll_slice rangeOrder node _ gaugeOrder c old Hro); [|intros g|done].
  - do 3 f_equal. apply map_ext. intros g. by rewrite (Hlist g).
  - specialize (Hfree g). rewrite (Hlist g) in Hfree. by destruct g.
Qed.

End node_orders.

(** [updateGauges] under two iteration orders: the same result and the
    same vectors, and the same records up to the order of the node's
    slice. *)
Lemma updateGauges_order prov cap rangeOrder gaugeOrder rangeOrder' gaugeOrder'
    (kubeClient : Client) (node : Node) (c : Node.State) (old : list Labels) :
  rangeOrders rangeOrder -> gaugeOrder ≡ₚ Node.gaugeVecs ->
  rangeOrders rangeOrder' -> gaugeOrder' ≡ₚ Node.gaugeVecs ->
  (forall items g,
     ListPods kubeClient (MetaName (NodeMeta node)) = Ok items ->
     collisionFree prov cap node (resourceListFor rangeOrder node items g)) ->
  Node.LabelSliceMap c !! nodeKey (MetaName (NodeMeta node)) = Some old ->
  let first := Node.updateGauges prov cap rangeOrder gaugeOrder kubeClient node c in
  let second := Node.updateGauges prov cap rangeOrder' gaugeOrder' kubeClient node c in
  second.1 = first.1 /\
  Node.Gauges second.2 = Node.Gauges first.2 /\
  (forall key, key <> nodeKey (MetaName (NodeMeta node)) ->
     Node.LabelSliceMap second.2 !! key = Node.LabelSliceMap first.2 !! key) /\
  exists slice slice',
    Node.LabelSliceMap first.2 !! nodeKey (MetaName (NodeMeta node)) = Some slice /\
    Node.LabelSliceMap second.2 !! nodeKey (MetaName (NodeMeta node)) = Some slice' /\
    slice ≡ₚ slice'.
Proof.
  intros Hro Hg Hro' Hg' Hfree Hold. simpl.
  split; [|split; [|split]].
  - unfold Node.updateGauges.
    destruct (ListPods kubeClient (MetaName (NodeMeta node))); [|done].
    by repeat destruct (Node.getPodsTotalRequestsAndLimits _ _).
  - destruct (ListPods kubeClient (MetaName (NodeMeta node))) as [items|err] eqn:Hl.
    + apply Registry_eq. intros g.
      destruct (updateGauges_vec prov cap rangeOrder gaugeOrder Hg kubeClient node c
                  items g Hl) as [_ ->].
      destruct (updateGauges_vec prov cap rangeOrder' gaugeOrder' Hg' kubeClient node c
                  items g Hl) as [_ ->].
      rewrite <- (resourceListFor_order rangeOrder rangeOrder') by done.
      apply (publishEntries_order prov cap node (resourceListFor rangeOrder node items g));
        [apply Hro'|apply Hro|by apply Hfree].
    + unfold Node.updateGauges. by rewrite Hl.
  - intros key Hne. by rewrite !updateGauges_slices.
  - destruct (ListPods kubeClient (MetaName (NodeMeta node))) as [items|err] eqn:Hl.
    + eexists _, _.
      split; [apply (updateGauges_slice prov cap rangeOrder gaugeOrder kubeClient node c
                       items old Hro Hl); [intros g; by apply Hfree|done]|].
      split; [apply (updateGauges_slice prov cap rangeOrder' gaugeOrder' kubeClient node c
                       items old Hro' Hl); [|done]; intros g;
              rewrite <- (resourceListFor_order rangeOrder rangeOrder') by done;
              by apply Hfree|].
      f_equiv. apply concat_map_Permutation; [by rewrite Hg, Hg'|].
      intros g. rewrite <- (resourceListFor_order rangeOrder rangeOrder') by done.
      apply Permutation_map. by rewrite (Hro _), (Hro' _).
    + exists old, old. unfold Node.updateGauges. by rewrite Hl.
Qed.

Lemma Reconcile_Ok prov cap rangeOrder gaugeOrder (kubeClient : Client)
    (req : NamespacedName) (node : Node) (c : Node.State) :
  GetNode kubeClient req = Ok node ->
  Node.Reconcile prov cap rangeOrder gaugeOrder kubeClient req c =
  Node.updateGauges prov cap rangeOrder gaugeOrder kubeClient node
    (Node.deleteGauges req c).
Proof.
  intros Hn. unfold Node.Reconcile. rewrite Hn.
  by destruct (Node.updateGauges _ _ _ _ _ _ _) as [[err|] c'].
Qed.

(** After a node is reconciled, [deleteGauges] brings the controller
    back to where [deleteGauges] had brought it before. *)
Lemma deleteGauges_Reconcile prov cap rangeOrder gaugeOrder (kubeClient : Client)
    (N : string) (node : Node) (c : Node.State) :
  reachable prov cap c ->
  GetNode kubeClient (nodeKey N) = Ok node ->
  MetaName (NodeMeta node) = N ->
  Node.deleteGauges (nodeKey N)
    (Node.Reconcile prov cap rangeOrder gaugeOrder kubeClient (nodeKey N) c).2 =
  Node.deleteGauges (nodeKey N) c.
Proof.
  intros Hr Hn HN.
  pose proof (reachable_Tracking _ _ _ Hr) as HT.
  pose proof (reachable_SliceNames _ _ _ Hr) as HS.
  set (once := Node.Reconcile prov cap rangeOrder gaugeOrder kubeClient (nodeKey N) c).
  assert (Tracking once.2) as HT1 by (by apply Reconcile_Tracking).
  assert (SliceNames once.2) as HS1 by (by apply Reconcile_SliceNames).
  apply State_eq.
  - apply map_eq. intros key. simpl.
    destruct (decide (key = nodeKey N)) as [->|Hne];
      [by rewrite !lookup_insert_eq|rewrite !lookup_insert_ne by done].
    unfold once. rewrite (Reconcile_Ok _ _ _ _ _ _ node) by done.
    rewrite updateGauges_slices by (by rewrite HN).
    simpl. by rewrite lookup_insert_ne.
  - intros g labels. rewrite !deleteGauges_vec_lookup by done.
    case_decide as Hk; [done|].
    unfold once. rewrite (Reconcile_Ok _ _ _ _ _ _ node) by done.
    rewrite updateGauges_frame.
    + rewrite deleteGauges_vec_lookup by done. by rewrite decide_False.
    + rewrite HN. intros Heq. apply Hk. by rewrite Heq.
Qed.


(** X2.  Reconciling a request leaves every series of every other node
    as it is, whether the reconciliation succeeds or fails. *)
Theorem reconcile_other_nodes prov cap rangeOrder gaugeOrder (kubeClient : Client)
    (req : NamespacedName) (c : Node.State) (g : Node.gauge) (labels : Labels) :
  reachable prov cap c ->
  nodeKey (label labels Node.nodeName) <> req ->
  (forall node, GetNode kubeClient req = Ok node ->
                label labels Node.nodeName <> MetaName (NodeMeta node)) ->
  Node.vec g (Node.Gauges
    (Node.Reconcile prov cap rangeOrder gaugeOrder kubeClient req c).2) !! labels =
  Node.vec g (Node.Gauges c) !! labels.
Proof.
  intros Hr Hk Hnode.
  pose proof (reachable_Tracking _ _ _ Hr) as HT.
  pose proof (reachable_SliceNames _ _ _ Hr) as HS.
  assert (Node.vec g (Node.Gauges (Node.deleteGauges req c)) !! labels =
          Node.vec g (Node.Gauges c) !! labels) as Hd.
  { rewrite deleteGauges_vec_lookup by done. by rewrite decide_False. }
  unfold Node.Reconcile. destruct (GetNode kubeClient req) as [node|err].
  - destruct (Node.updateGauges _ _ _ _ _ _ _) as [[err|] c'] eqn:E;
      replace c' with (Node.updateGauges prov cap rangeOrder gaugeOrder kubeClient node
                         (Node.deleteGauges req c)).2 by (by rewrite E);
      simpl; by rewrite updateGauges_frame by (by apply Hnode).
  - by destruct (errors_IsNotFound err).
Qed.

Lemma publishEntries_lookup_Some prov cap (node : Node) (entries : list (string * Z))
    (v : GaugeVec) (labels : Labels) (x : float) :
  publishEntries prov cap node entries v !! labels = Some x ->
  v !! labels = Some x \/
  exists name q, (name, q) ∈ entries /\
    labels = Node.generateLabels prov cap node (Node.resourceTypeName name) /\
    x = Node.gaugeValue name q.
Proof.
  revert v. induction entries as [|[name q] rest IH]; intros v; simpl; [by left|].
  unfold GetMetricWith. destruct (validateLabels _ _); simpl; [by left|].
  intros [H|(n & y & Hin & ? & ?)]%IH.
  - unfold Gauge_Set in H.
    destruct (decide (Node.generateLabels prov cap node (Node.resourceTypeName name) = labels))
      as [Heq|Hne].
    + rewrite Heq, lookup_insert_eq in H. injection H as <-.
      right. exists name, q. split; [left|done].
    + rewrite lookup_insert_ne in H by done.
      destruct (v !! _); [by left|]. rewrite lookup_insert_ne in H by done. by left.
  - right. exists n, y. split; [by right|done].
Qed.

(** X3.  After a node is reconciled, the series of a vector that carry
    its request's name are those of the node's current resources: each
    has the labels of a resource of the vector's list and the value of
    that resource.  No series of an earlier reconciliation survives. *)
Theorem reconcile_no_stale_series prov cap rangeOrder gaugeOrder (kubeClient : Client)
    (N : string) (node : Node) (items : list Pod) (c : Node.State)
    (g : Node.gauge) (labels : Labels) (x : float) :
  rangeOrders rangeOrder ->
  gaugeOrder ≡ₚ Node.gaugeVecs ->
  reachable prov cap c ->
  GetNode kubeClient (nodeKey N) = Ok node ->
  ListPods kubeClient (MetaName (NodeMeta node)) = Ok items ->
  Node.vec g (Node.Gauges
    (Node.Reconcile prov cap rangeOrder gaugeOrder kubeClient (nodeKey N) c).2)
    !! labels = Some x ->
  labels !! Node.nodeName = Some N ->
  exists name q,
    resourceListFor rangeOrder node items g !! name = Some q /\
    labels = Node.generateLabels prov cap node (Node.resourceTypeName name) /\
    x = Node.gaugeValue name q.
Proof.
  intros Hro Hg Hr Hn Hl Hx HN.
  destruct (Reconcile_found prov cap rangeOrder gaugeOrder kubeClient (nodeKey N) c
              node items Hg Hn Hl) as [_ Hvec].
  rewrite Hvec in Hx.
  apply publishEntries_lookup_Some in Hx as [Hx|(name & q & Hin & ? & ?)].
  - rewrite (deleteGauges_vec_lookup (nodeKey N) c g labels
               (reachable_Tracking _ _ _ Hr) (reachable_SliceNames _ _ _ Hr)) in Hx.
    rewrite decide_True in Hx; [done|]. unfold label. by rewrite HN.
  - exists name, q. split; [|done]. rewrite (Hro _) in Hin.
    by apply elem_of_map_to_list in Hin.
Qed.

(** X4.  [insertGaugeValues] returns an error exactly when the vector
    refuses the labels of some resource of the list; the error wraps the
    one of the vector. *)
Theorem insertGaugeValues_error prov cap rangeOrder (resourceList : ResourceList)
    (node : Node) (g : Node.gauge) (c : Node.State) :
  rangeOrders rangeOrder ->
  let out := Node.insertGaugeValues prov cap rangeOrder resourceList node g c in
  (out.1 = None <->
   forall name, is_Some (resourceList !! name) ->
     validateLabels Node.labelNames
       (Node.generateLabels prov cap node (Node.resourceTypeName name)) = None) /\
  (forall err, out.1 = Some err ->
     exists name e,
       is_Some (resourceList !! name) /\
       validateLabels Node.labelNames
         (Node.generateLabels prov cap node (Node.resourceTypeName name)) = Some e /\
       err = ErrWrap "generate new gauge" e).
Proof.
  intros Hro. simpl. unfold Node.insertGaugeValues.
  assert (forall name, is_Some (resourceList !! name) <->
                       exists q, (name, q) ∈ rangeOrder resourceList) as Hin.
  { intros name. split; intros [q Hq]; exists q.
    - rewrite (Hro _). by apply elem_of_map_to_list.
    - rewrite (Hro _) in Hq. by apply elem_of_map_to_list in Hq. }
  generalize dependent (rangeOrder resourceList). intros entries Hin.
  assert (((Node.insertEntries prov cap node g entries c).1 = None <->
           forall name q, (name, q) ∈ entries ->
             validateLabels Node.labelNames
               (Node.generateLabels prov cap node (Node.resourceTypeName name)) = None) /\
          (forall err, (Node.insertEntries prov cap node g entries c).1 = Some err ->
             exists name q e, (name, q) ∈ entries /\
               validateLabels Node.labelNames
                 (Node.generateLabels prov cap node (Node.resourceTypeName name)) = Some e /\
               err = ErrWrap "generate new gauge" e)) as [H1 H2].
  { clear Hin. revert c. induction entries as [|[name q] rest IH]; intros c; simpl.
    - split; [split; [by intros _ ? ? ?%not_elem_of_nil|done]|done].
    - unfold Node.insertGaugeValue, GetMetricWith.
      destruct (validateLabels _ _) as [e|] eqn:Hv; simpl.
      + split; [split; [done|]|].
        * intros H. rewrite (H name q) in Hv by left. done.
        * intros err [= <-]. exists name, q, e. split; [left|done].
      + match goal with |- context [Node.insertEntries _ _ _ _ _ ?c'] =>
          destruct (IH c') as [[IH1 IH2] IH3] end.
        split; [split|].
        * intros H n y [[= -> ->]|Hy]%elem_of_cons; [done|]. by eapply IH1.
        * intros H. apply IH2. intros n y Hy. apply (H n y). by right.
        * intros err Herr. destruct (IH3 err Herr) as (n & y & e & ? & ? & ?).
          exists n, y, e. split; [by right|done]. }
  split.
  - rewrite H1. split.
    + intros H name [q Hq]%Hin. by eapply H.
    + intros H name q Hq. apply H, Hin. by exists q.
  - intros err Herr. destruct (H2 err Herr) as (n & y & e & ? & ? & ?).
    exists n, e. split; [apply Hin; by exists y|done].
Qed.

(** * The pod controller from one reconciliation to the next *)

Lemma deleteGauge_lookup (req : NamespacedName) (c : Pod.State) (labels : Labels) :
  Pod.podGaugeVec (Pod.deleteGauge req c) !! labels =
  match Pod.LabelsMap c !! req with
  | Some old =>
    if decide (labels = old /\ validateLabels Pod.getLabelNames old = None) then None
    else Pod.podGaugeVec c !! labels
  | None => Pod.podGaugeVec c !! labels
  end.
Proof.
  unfold Pod.deleteGauge. destruct (Pod.LabelsMap c !! req) as [old|]; [|done].
  simpl. unfold GaugeVec_Delete. case_decide as H.
  - destruct H as [-> ->]. apply lookup_delete_eq.
  - destruct (validateLabels Pod.getLabelNames old) eqn:E; [done|].
    apply lookup_delete_ne. intros <-. by apply H.
Qed.

Lemma deleteGauge_LabelsMap (req : NamespacedName) (c : Pod.State) :
  Pod.LabelsMap (Pod.deleteGauge req c) = Pod.LabelsMap c.
Proof. unfold Pod.deleteGauge. by destruct (Pod.LabelsMap c !! req). Qed.

Lemma deleteGauge_PodTracking (req : NamespacedName) (c : Pod.State) :
  PodTracking c -> PodTracking (Pod.deleteGauge req c).
Proof.
  intros HT labels x H. rewrite deleteGauge_lookup in H.
  rewrite deleteGauge_LabelsMap. apply (HT labels x).
  destruct (Pod.LabelsMap c !! req); [|done]. by case_decide.
Qed.

Section pod_tracking.
Variable ProvisionerNameLabelKey : string.
Variable LabelCapacityType : string.
Variable json_Marshal : Labels -> result string.
Local Abbreviation Reconcile :=
  (Pod.Reconcile ProvisionerNameLabelKey LabelCapacityType json_Marshal).

Lemma pod_Reconcile_PodTracking (kubeClient : Client) (req : NamespacedName)
    (c : Pod.State) :
  PodTracking c -> PodTracking (Reconcile kubeClient req c).2.
Proof.
  intros HT. pose proof (deleteGauge_PodTracking req c HT) as HD.
  unfold Pod.Reconcile. destruct (GetPod kubeClient req) as [pod|err].
  - destruct (Pod.generateLabels _ _ _ _ _) as [newlabels|err]; [|done].
    unfold GetMetricWith.
    destruct (validateLabels Pod.getLabelNames newlabels) eqn:Hv; [done|].
    simpl. intros labels x H. simpl in H. unfold Gauge_Set in H.
    destruct (decide (labels = newlabels)) as [->|Hne].
    { split; [done|]. exists req. apply lookup_insert_eq. }
    rewrite lookup_insert_ne in H by done.
    assert (Pod.podGaugeVec (Pod.deleteGauge req c) !! labels = Some x) as H0.
    { destruct (Pod.podGaugeVec (Pod.deleteGauge req c) !! newlabels); [done|].
      by rewrite lookup_insert_ne in H. }
    clear H. rewrite deleteGauge_lookup in H0. rewrite deleteGauge_LabelsMap.
    destruct (Pod.LabelsMap c !! req) as [old|] eqn:E.
    + case_decide as Hd; [done|]. destruct (HT _ _ H0) as [Hok [key Hkey]].
      split; [done|]. exists key. simpl. rewrite lookup_insert_ne; [done|].
      intros <-. apply Hd. split; congruence.
    + destruct (HT _ _ H0) as [Hok [key Hkey]]. split; [done|].
      exists key. simpl. rewrite lookup_insert_ne; [done|]. congruence.
  - by destruct (errors_IsNotFound err).
Qed.

End pod_tracking.

Lemma podReachable_PodTracking prov cap json_Marshal (c : Pod.State) :
  podReachable prov cap json_Marshal c -> PodTracking c.
Proof.
  induction 1 as [|kubeClient req c _ IH].
  - intros labels x H. simpl in H. by rewrite lookup_empty in H.
  - by apply pod_Reconcile_PodTracking.
Qed.

(** X5.  When the pod of the request is gone, the reconciliation returns
    no error, deletes the series of the labels recorded for the request
    and no other series, and keeps the record. *)
Theorem deleted_pod prov cap json_Marshal (kubeClient : Client) (req : NamespacedName)
    (c : Pod.State) (err : error) :
  podReachable prov cap json_Marshal c ->
  GetPod kubeClient req = Err err ->
  errors_IsNotFound err = true ->
  let out := Pod.Reconcile prov cap json_Marshal kubeClient req c in
  out.1 = None /\
  Pod.LabelsMap out.2 = Pod.LabelsMap c /\
  (forall old, Pod.LabelsMap c !! req = Some old ->
     Pod.podGaugeVec out.2 !! old = None /\
     forall labels, labels <> old ->
       Pod.podGaugeVec out.2 !! labels = Pod.podGaugeVec c !! labels) /\
  (Pod.LabelsMap c !! req = None -> out.2 = c).
Proof.
  intros Hr Hp Hnf. apply podReachable_PodTracking in Hr.
  unfold Pod.Reconcile. rewrite Hp, Hnf. simpl.
  split; [done|]. split; [apply deleteGauge_LabelsMap|]. split.
  - intros old Hold. split.
    + rewrite deleteGauge_lookup, Hold. case_decide as Hd; [done|].
      destruct (Pod.podGaugeVec c !! old) as [x|] eqn:E; [|done].
      destruct (Hr _ _ E) as [Hok _]. destruct Hd. by split.
    + intros labels Hne. rewrite deleteGauge_lookup, Hold.
      case_decide as Hd; [by destruct Hd|done].
  - intros Hnone. unfold Pod.deleteGauge. by rewrite Hnone.
Qed.

(** X6.  When a pod is reconciled with success, the series of its new
    labels is 1, the series of the labels recorded before, if they
    differ, is gone, every other series is as it was, and the new labels
    are the record of the pod. *)
Theorem pod_relabelled prov cap json_Marshal (kubeClient : Client) (req : NamespacedName)
    (c : Pod.State) (pod : Pod) :
  podReachable prov cap json_Marshal c ->
  GetPod kubeClient req = Ok pod ->
  let out := Pod.Reconcile prov cap json_Marshal kubeClient req c in
  out.1 = None ->
  exists newlabels,
    Pod.generateLabels prov cap json_Marshal kubeClient pod = Ok newlabels /\
    Pod.LabelsMap out.2 = <[req := newlabels]> (Pod.LabelsMap c) /\
    Pod.podGaugeVec out.2 !! newlabels = Some 1%float /\
    (forall old, Pod.LabelsMap c !! req = Some old -> old <> newlabels ->
       Pod.podGaugeVec out.2 !! old = None) /\
    (forall labels, labels <> newlabels -> Pod.LabelsMap c !! req <> Some labels ->
       Pod.podGaugeVec out.2 !! labels = Pod.podGaugeVec c !! labels).
Proof.
  intros Hr Hp. apply podReachable_PodTracking in Hr. simpl.
  unfold Pod.Reconcile. rewrite Hp.
  destruct (Pod.generateLabels _ _ _ _ _) as [newlabels|err]; [|done].
  unfold GetMetricWith.
  destruct (validateLabels Pod.getLabelNames newlabels) eqn:Hv; [done|].
  simpl. intros _. exists newlabels. split; [done|].
  split; [by rewrite deleteGauge_LabelsMap|]. unfold Gauge_Set.
  split; [by rewrite lookup_insert_eq|].
  assert (forall labels, labels <> newlabels ->
            <[newlabels := float64 1]>
              match Pod.podGaugeVec (Pod.deleteGauge req c) !! newlabels with
              | Some _ => Pod.podGaugeVec (Pod.deleteGauge req c)
              | None => <[newlabels := 0%float]> (Pod.podGaugeVec (Pod.deleteGauge req c))
              end !! labels = Pod.podGaugeVec (Pod.deleteGauge req c) !! labels) as Hother.
  { intros labels Hne. rewrite lookup_insert_ne by done.
    destruct (_ !! newlabels); [done|]. by rewrite lookup_insert_ne. }
  split.
  - intros old Hold Hne. rewrite Hother by done.
    rewrite deleteGauge_lookup, Hold. case_decide as Hd; [done|].
    destruct (Pod.podGaugeVec c !! old) as [x|] eqn:E; [|done].
    destruct (Hr _ _ E) as [Hok _]. destruct Hd. by split.
  - intros labels Hne Hold. rewrite Hother by done.
    rewrite deleteGauge_lookup. destruct (Pod.LabelsMap c !! req) as [old|]; [|done].
    case_decide as Hd; [|done]. destruct Hd as [-> _]. by destruct Hold.
Qed.

Lemma deleteGauge_twice (req : NamespacedName) (c : Pod.State) :
  Pod.deleteGauge req (Pod.deleteGauge req c) = Pod.deleteGauge req c.
Proof.
  unfold Pod.deleteGauge. destruct (Pod.LabelsMap c !! req) as [old|] eqn:E; simpl.
  - rewrite E. f_equal. unfold GaugeVec_Delete.
    destruct (validateLabels Pod.getLabelNames old); [done|]. apply delete_delete_eq.
  - by rewrite E.
Qed.

(** X16.  Reconciling a pod twice in a row, against the same cluster,
    gives the state and the result of reconciling it once, from every
    state of the controller and whatever the first reconciliation
    returned. *)
Theorem pod_reconcile_twice prov cap json_Marshal (kubeClient : Client)
    (req : NamespacedName) (c : Pod.State) :
  Pod.Reconcile prov cap json_Marshal kubeClient req
    (Pod.Reconcile prov cap json_Marshal kubeClient req c).2 =
  Pod.Reconcile prov cap json_Marshal kubeClient req c.
Proof.
  unfold Pod.Reconcile. destruct (GetPod kubeClient req) as [pod|err].
  - destruct (Pod.generateLabels prov cap json_Marshal kubeClient pod) as [newlabels|err];
      [|simpl; by rewrite deleteGauge_twice].
    unfold GetMetricWith.
    destruct (validateLabels Pod.getLabelNames newlabels) eqn:Hv; simpl;
      [by rewrite deleteGauge_twice|].
    set (c1 := Pod.deleteGauge req c).
    set (series := match Pod.podGaugeVec c1 !! newlabels with
                   | Some _ => Pod.podGaugeVec c1
                   | None => <[newlabels := 0%float]> (Pod.podGaugeVec c1)
                   end).
    assert (Pod.deleteGauge req
              {| Pod.LabelsMap := <[req := newlabels]> (Pod.LabelsMap c1);
                 Pod.podGaugeVec := Gauge_Set newlabels (float64 1) series |} =
            {| Pod.LabelsMap := <[req := newlabels]> (Pod.LabelsMap c1);
               Pod.podGaugeVec := delete newlabels series |}) as ->.
    { unfold Pod.deleteGauge. simpl. rewrite lookup_insert_eq. f_equal.
      unfold GaugeVec_Delete, Gauge_Set. rewrite Hv. apply delete_insert_eq. }
    simpl. rewrite lookup_delete_eq, insert_insert_eq. f_equal. f_equal.
    unfold Gauge_Set. apply map_eq. intros labels.
    destruct (decide (labels = newlabels)) as [->|Hne].
    + by rewrite !lookup_insert_eq.
    + by rewrite !lookup_insert_ne, lookup_delete_ne by done.
  - destruct (errors_IsNotFound err); simpl; [by rewrite deleteGauge_twice|done].
Qed.

(** * Volume topology *)

Lemma foldl_snoc {A B} (f : A -> B) (l : list A) (acc : list B) :
  foldl (fun acc x => acc ++ [f x]) acc l = acc ++ map f l.
Proof.
  revert acc. induction l as [|x l IH]; intros acc; simpl.
  - by rewrite app_nil_r.
  - by rewrite IH, <- app_assoc.
Qed.

Lemma collectRequirements_Ok kubeClient pod volumes acc r :
  Selection.collectRequirements kubeClient pod volumes acc = Ok r <->
  exists rs,
    Forall2 (fun volume req => Selection.getRequirements kubeClient pod volume = Ok req)
            volumes rs /\
    r = acc ++ concat rs.
Proof.
  revert acc. induction volumes as [|v volumes IH]; intros acc; simpl.
  - split.
    + intros [= <-]. exists []. split; [constructor|]. by rewrite app_nil_r.
    + intros (rs & H & ->). inversion H. simpl. by rewrite app_nil_r.
  - destruct (Selection.getRequirements kubeClient pod v) as [req|err] eqn:E.
    + rewrite IH. split.
      * intros (rs & H & ->). exists (req :: rs). split; [by constructor|].
        simpl. by rewrite app_assoc.
      * intros (rs & H & ->). inversion H as [|? q ? rs' Hq Hrs]; subst.
        assert (q = req) as -> by congruence.
        exists rs'. split; [done|]. simpl. by rewrite app_assoc.
    + split; [done|]. intros (rs & H & _). inversion H; congruence.
Qed.

Lemma collectRequirements_Err kubeClient pod volumes acc err :
  Selection.collectRequirements kubeClient pod volumes acc = Err err <->
  exists before volume after,
    volumes = before ++ volume :: after /\
    Forall (fun v => exists req, Selection.getRequirements kubeClient pod v = Ok req)
           before /\
    Selection.getRequirements kubeClient pod volume = Err err.
Proof.
  revert acc. induction volumes as [|v volumes IH]; intros acc; simpl.
  - split; [done|]. intros (before & volume & after & H & _). by destruct before.
  - destruct (Selection.getRequirements kubeClient pod v) as [req|e] eqn:E.
    + rewrite IH. split.
      * intros (before & volume & after & -> & Hb & Hv).
        exists (v :: before), volume, after. split; [done|]. split; [|done].
        constructor; [by exists req|done].
      * intros (before & volume & after & Heq & Hb & Hv).
        destruct before as [|v' before]; simpl in Heq.
        { injection Heq as <- <-. congruence. }
        injection Heq as <- ->. inversion Hb; subst.
        by exists before, volume, after.
    + split.
      * intros [= ->]. exists [], v, volumes. by repeat split.
      * intros (before & volume & after & Heq & Hb & Hv).
        destruct before as [|v' before]; simpl in Heq.
        { injection Heq as <- <-. congruence. }
        injection Heq as <- ->. inversion Hb as [|? ? [req Hreq] ?]; subst. congruence.
Qed.

(** X7.  The requirements of a claim come from the volume it is bound to, and
    from its storage class only when it is not bound: of a bound claim,
    the expressions of the first required term of the volume, and nothing
    when the volume has no required node affinity; of an unbound claim
    with a storage class, one [In] requirement for every label expression
    of the first allowed topology of the class, in their order. *)
Theorem claim_requirements (kubeClient : Selection.VolumeClient) (pod : Selection.Pod)
    (claimName : string) (pvc : Selection.PersistentVolumeClaim_) :
  Selection.GetClaim kubeClient
    {| Namespace := Selection.PodNamespace pod; Name := claimName |} = Ok pvc ->
  let requirements :=
    Selection.getRequirements kubeClient pod
      {| Selection.PersistentVolumeClaim := Some claimName |} in
  (Selection.VolumeName pvc <> EmptyString ->
   forall pv,
     Selection.GetVolume kubeClient
       {| Namespace := Selection.PodNamespace pod; Name := Selection.VolumeName pvc |}
       = Ok pv ->
     requirements =
     Ok match Selection.VolumeNodeAffinity pv with
        | Some (Some {| Selection.NodeSelectorTerms := term :: _ |}) =>
          Selection.MatchExpressions term
        | _ => []
        end) /\
  (Selection.VolumeName pvc = EmptyString ->
   forall className storageClass,
     Selection.StorageClassName pvc = Some className ->
     className <> EmptyString ->
     Selection.GetStorageClass kubeClient {| Namespace := ""; Name := className |}
       = Ok storageClass ->
     requirements =
     Ok match Selection.AllowedTopologies storageClass with
        | term :: _ => map topologyRequirement (Selection.MatchLabelExpressions term)
        | [] => []
        end) /\
  (Selection.VolumeName pvc = EmptyString ->
   Selection.StringValue (Selection.StorageClassName pvc) = EmptyString ->
   requirements = Ok []).
Proof.
  intros Hc. simpl. unfold Selection.getRequirements. simpl. rewrite Hc.
  split; [|split].
  - intros Hv pv Hpv.
    destruct (String.eqb_spec (Selection.VolumeName pvc) "") as [|_]; [done|]. simpl.
    unfold Selection.getPersistentVolumeRequirements. rewrite Hpv.
    destruct (Selection.VolumeNodeAffinity pv) as [[[[|term terms]]|]|]; done.
  - intros Hv className storageClass Hs Hne Hsc. rewrite Hv. simpl.
    rewrite Hs. simpl.
    destruct (String.eqb_spec className "") as [|_]; [done|]. simpl.
    unfold Selection.getStorageClassRequirements. rewrite Hs. simpl. rewrite Hsc.
    destruct (Selection.AllowedTopologies storageClass) as [|term terms]; [done|].
    f_equal. apply (foldl_snoc topologyRequirement _ []).
  - intros Hv Hs. rewrite Hv, Hs. done.
Qed.

(** X8.  When the volumes of a pod have requirements and the pod requires a
    node selector term, [Inject] returns nil and appends the requirements
    of all volumes, in the order of the volumes, to the expressions of the
    first term; every other term, the fields of the first term, the
    preferences, the volumes and the namespace are as they were. *)
Theorem inject_appends (kubeClient : Selection.VolumeClient) (pod : Selection.Pod)
    (requirements : list (list Selection.NodeSelectorRequirement))
    (term : Selection.NodeSelectorTerm) (terms : list Selection.NodeSelectorTerm) :
  volumeRequirements kubeClient pod requirements ->
  concat requirements <> [] ->
  requiredTerms pod = term :: terms ->
  exists pod',
    Selection.Inject kubeClient pod = Selection.Returns None pod' /\
    requiredTerms pod' =
      {| Selection.MatchExpressions :=
           Selection.MatchExpressions term ++ concat requirements;
         Selection.MatchFields := Selection.MatchFields term |} :: terms /\
    preferredTerms pod' = preferredTerms pod /\
    Selection.Volumes pod' = Selection.Volumes pod /\
    Selection.PodNamespace pod' = Selection.PodNamespace pod.
Proof.
  intros Hreq Hne Hterms. unfold Selection.Inject.
  assert (Selection.collectRequirements kubeClient pod (Selection.Volumes pod) [] =
          Ok (concat requirements)) as ->.
  { apply collectRequirements_Ok. by exists requirements. }
  destruct (concat requirements) as [|r rs] eqn:E; [done|].
  change (length (r :: rs) =? 0)%nat with false. cbv iota.
  revert Hterms. unfold requiredTerms, preferredTerms.
  destruct (Selection.PodAffinity pod) as [[[[[required|] preferred]|]]|]; try done.
  simpl. intros ->. eexists. split; [reflexivity|]. simpl.
  split; [|done]. f_equal. f_equal.
  rewrite (foldl_snoc (fun x => x)), map_id. by rewrite <- app_assoc.
Qed.

(** X9.  [Inject] panics exactly when the volumes of the pod have requirements
    and the pod requires no node selector term: the first term is then
    assigned in an empty slice. *)
Theorem inject_panics (kubeClient : Selection.VolumeClient) (pod : Selection.Pod) :
  Selection.Inject kubeClient pod = Selection.Panics <->
  requiredTerms pod = [] /\
  exists requirements,
    volumeRequirements kubeClient pod requirements /\ concat requirements <> [].
Proof.
  unfold Selection.Inject, volumeRequirements.
  destruct (Selection.collectRequirements kubeClient pod (Selection.Volumes pod) [])
    as [reqs|err] eqn:E.
  - apply collectRequirements_Ok in E as (rs & Hrs & ->). simpl.
    assert (forall rs', Forall2
              (fun volume req => Selection.getRequirements kubeClient pod volume = Ok req)
              (Selection.Volumes pod) rs' -> rs' = rs) as Huniq.
    { intros rs' H. revert rs' H. induction Hrs as [|v q vs qs Hq _ IH]; intros rs' H.
      - by inversion H.
      - inversion H as [|? q' ? qs' Hq' Hqs']; subst. f_equal; [congruence|by apply IH]. }
    destruct (concat rs) as [|r rest] eqn:Ec.
    + simpl. split; [done|]. intros (_ & rs' & H & Hne).
      apply Huniq in H as ->. congruence.
    + change (length (r :: rest) =? 0)%nat with false. cbv iota.
      unfold requiredTerms.
      destruct (Selection.PodAffinity pod) as [[[[[[[|term terms]]|] preferred]|]]|];
        simpl;
        (split;
         [intros H;
          first [discriminate H
                |split; [done|]; exists rs; split; [done|congruence]]
         |intros [H _]; first [discriminate H|done]]).
  - split; [done|]. intros (_ & rs & H & _).
    assert (Selection.collectRequirements kubeClient pod (Selection.Volumes pod) [] =
            Ok ([] ++ concat rs)) as E' by (apply collectRequirements_Ok; by exists rs).
    congruence.
Qed.

(** X10.  [Inject] returns an error exactly when the lookup of some volume
    fails: the error is that of the first such volume, and the pod is
    left as it was.  When no volume has a requirement the pod is left as
    it was too. *)
Theorem inject_failure (kubeClient : Selection.VolumeClient) (pod : Selection.Pod) :
  (forall err pod',
     Selection.Inject kubeClient pod = Selection.Returns (Some err) pod' <->
     pod' = pod /\
     exists before volume after,
       Selection.Volumes pod = before ++ volume :: after /\
       Forall (fun v => exists req, Selection.getRequirements kubeClient pod v = Ok req)
              before /\
       Selection.getRequirements kubeClient pod volume = Err err) /\
  (forall requirements,
     volumeRequirements kubeClient pod requirements ->
     concat requirements = [] ->
     Selection.Inject kubeClient pod = Selection.Returns None pod).
Proof.
  split.
  - intros err pod'. rewrite <- collectRequirements_Err with (acc := []).
    unfold Selection.Inject.
    destruct (Selection.collectRequirements kubeClient pod (Selection.Volumes pod) [])
      as [reqs|e].
    + split; [|by intros [_ ?]].
      destruct (length reqs =? 0)%nat; [done|].
      by destruct (Selection.NodeSelectorTerms _).
    + split; [by intros [= -> ->]|by intros [-> [= ->]]].
  - intros requirements Hreq Hnil. unfold Selection.Inject.
    assert (Selection.collectRequirements kubeClient pod (Selection.Volumes pod) [] =
            Ok ([] ++ concat requirements)) as ->
      by (apply collectRequirements_Ok; by exists requirements).
    by rewrite Hnil.
Qed.

(** * Liveness *)

Lemma time_Sub_lt_timeout (t u : Z) :
  (Liveness.time_Sub t u <? Liveness.LivenessTimeout) = (t - u <? Liveness.LivenessTimeout).
Proof.
  unfold Liveness.time_Sub, Liveness.minDuration, Liveness.maxDuration,
    Liveness.LivenessTimeout, Liveness.Minute.
  destruct (Z.ltb_spec (t - u) (15 * (60 * 1000000000)));
    destruct (Z.ltb_spec (Z.max (- 2 ^ 63) (Z.min (2 ^ 63 - 1) (t - u)))
                         (15 * (60 * 1000000000))); lia.
Qed.

Section liveness_facts.
Variable GetCondition : list Liveness.NodeCondition -> string -> Liveness.NodeCondition.
Local Abbreviation Reconcile := (Liveness.Reconcile GetCondition).

Lemma liveness_Reconcile_young (now : Z) (delete : Liveness.LiveNode -> option error)
    (n : Liveness.LiveNode) :
  now - Liveness.CreationTimestamp n < Liveness.LivenessTimeout ->
  Reconcile now delete n =
  {| Liveness.RequeueAfter :=
       Liveness.wrap64
         (Liveness.LivenessTimeout - Liveness.time_Sub now (Liveness.CreationTimestamp n));
     Liveness.Error := None;
     Liveness.Deleted := false |}.
Proof.
  intros Hy. unfold Liveness.Reconcile. rewrite time_Sub_lt_timeout.
  destruct (Z.ltb_spec (now - Liveness.CreationTimestamp n) Liveness.LivenessTimeout);
    [done|lia].
Qed.

Lemma liveness_Reconcile_old (now : Z) (delete : Liveness.LiveNode -> option error)
    (n : Liveness.LiveNode) :
  Liveness.LivenessTimeout <= now - Liveness.CreationTimestamp n ->
  Liveness.RequeueAfter (Reconcile now delete n) = 0.
Proof.
  intros Ho. unfold Liveness.Reconcile. rewrite time_Sub_lt_timeout.
  destruct (Z.ltb_spec (now - Liveness.CreationTimestamp n) Liveness.LivenessTimeout);
    [lia|].
  destruct (negb _ && negb _); [done|]. by destruct (delete n).
Qed.

(** X11.  A node younger than the liveness timeout is never deleted, whatever
    its conditions: the reconciliation returns no error and asks to be
    requeued; the delay is positive exactly when the creation time is not
    so far after the present that the 64-bit duration overflows, and the
    delay then ends at the instant the node reaches the timeout, where the
    next reconciliation asks for no further requeue. *)
Theorem liveness_young (now : Z) (delete : Liveness.LiveNode -> option error)
    (n : Liveness.LiveNode) :
  now - Liveness.CreationTimestamp n < Liveness.LivenessTimeout ->
  let out := Reconcile now delete n in
  Liveness.Deleted out = false /\
  Liveness.Error out = None /\
  (0 < Liveness.RequeueAfter out <->
   Liveness.CreationTimestamp n - now <= Liveness.maxDuration - Liveness.LivenessTimeout) /\
  (0 < Liveness.RequeueAfter out ->
   now + Liveness.RequeueAfter out =
     Liveness.CreationTimestamp n + Liveness.LivenessTimeout /\
   Liveness.RequeueAfter
     (Reconcile (now + Liveness.RequeueAfter out) delete n) = 0).
Proof.
  intros Hy. simpl. rewrite (liveness_Reconcile_young now delete n Hy). simpl.
  split; [done|]. split; [done|].
  assert (0 < Liveness.wrap64
                (Liveness.LivenessTimeout -
                 Liveness.time_Sub now (Liveness.CreationTimestamp n)) <->
          Liveness.CreationTimestamp n - now <=
            Liveness.maxDuration - Liveness.LivenessTimeout) as Hpos.
  { revert Hy.
    unfold Liveness.wrap64, Liveness.time_Sub, Liveness.minDuration, Liveness.maxDuration,
      Liveness.LivenessTimeout, Liveness.Minute.
    generalize (Liveness.CreationTimestamp n). intros created Hy.
    destruct (Z.le_gt_cases (created - now) (2 ^ 63 - 1 - 15 * (60 * 1000000000)))
      as [Hle|Hgt].
    - replace (Z.max (- 2 ^ 63) (Z.min (2 ^ 63 - 1) (now - created)))
        with (now - created) by lia.
      rewrite Z.mod_small by lia. lia.
    - split; [|lia]. intros Hpos. exfalso.
      assert (- 2 ^ 63 <= Z.max (- 2 ^ 63) (Z.min (2 ^ 63 - 1) (now - created))
              < - (2 ^ 63 - 1 - 15 * (60 * 1000000000))) as Hr by lia.
      revert Hpos Hr.
      generalize (Z.max (- 2 ^ 63) (Z.min (2 ^ 63 - 1) (now - created))).
      intros d Hpos Hr.
      replace (15 * (60 * 1000000000) - d + 2 ^ 63)
        with ((15 * (60 * 1000000000) - d - 2 ^ 63) + 1 * 2 ^ 64) in Hpos by lia.
      rewrite Z.mod_add in Hpos by lia.
      rewrite Z.mod_small in Hpos by lia. lia. }
  split; [done|]. intros Hp. apply Hpos in Hp as Hle.
  assert (Liveness.wrap64
            (Liveness.LivenessTimeout -
             Liveness.time_Sub now (Liveness.CreationTimestamp n)) =
          Liveness.LivenessTimeout - (now - Liveness.CreationTimestamp n)) as ->.
  { revert Hy Hle.
    unfold Liveness.wrap64, Liveness.time_Sub, Liveness.minDuration, Liveness.maxDuration,
      Liveness.LivenessTimeout, Liveness.Minute.
    generalize (Liveness.CreationTimestamp n). intros created Hy Hle.
    replace (Z.max (- 2 ^ 63) (Z.min (2 ^ 63 - 1) (now - created)))
      with (now - created) by lia.
    rewrite Z.mod_small by lia. lia. }
  split; [lia|]. apply liveness_Reconcile_old. lia.
Qed.

(** X12.  The subreconciler calls [Delete] exactly for a node that has reached
    the liveness timeout and whose ready condition has the reason "" or
    "NodeStatusNeverUpdated"; it returns an error exactly when that call
    fails, the error wrapping the one of the call; from the timeout on it
    asks for no requeue. *)
Theorem liveness_deletes (now : Z) (delete : Liveness.LiveNode -> option error)
    (n : Liveness.LiveNode) :
  let out := Reconcile now delete n in
  let reason := Liveness.Reason (GetCondition (Liveness.Conditions n) Liveness.NodeReady) in
  (Liveness.Deleted out = true <->
   Liveness.LivenessTimeout <= now - Liveness.CreationTimestamp n /\
   (reason = EmptyString \/ reason = "NodeStatusNeverUpdated"%string)) /\
  (forall err, Liveness.Error out = Some err <->
     Liveness.Deleted out = true /\
     exists e, delete n = Some e /\ err = ErrWrap "deleting node" e) /\
  (Liveness.LivenessTimeout <= now - Liveness.CreationTimestamp n ->
   Liveness.RequeueAfter out = 0).
Proof.
  simpl. unfold Liveness.Reconcile. rewrite time_Sub_lt_timeout.
  destruct (Z.ltb_spec (now - Liveness.CreationTimestamp n) Liveness.LivenessTimeout)
    as [Hlt|Hge]; simpl.
  - split; [split; [done|lia]|]. split; [|lia]. intros err. split; [done|by intros [? _]].
  - generalize (Liveness.Reason (GetCondition (Liveness.Conditions n) Liveness.NodeReady)).
    intros reason.
    destruct (String.eqb_spec reason "") as [He|He];
      destruct (String.eqb_spec reason "NodeStatusNeverUpdated") as [Hn|Hn]; simpl.
    4: { split; [split; [done|by intros [_ [?|?]]]|]. split; [|done].
         intros err. split; [done|by intros [? _]]. }
    all: destruct (delete n) as [e|]; simpl.
    all: split; [split; [intros _; split; [done|tauto]|done]|].
    all: split; [|done].
    all: intros err; split.
    all: try (intros [= <-]; split; [done|by exists e]).
    all: try (by intros [_ (e' & [= <-] & ->)]).
    all: try done.
    all: by intros [_ (e' & [=] & _)].
Qed.

End liveness_facts.

(** * Validation of the provider and of the options *)

Lemma foldl_collect {K V B} (P : K -> V -> Prop) `{!forall k v, Decision (P k v)}
    (f : K -> V -> B) (l : list (K * V)) (acc : list B) :
  foldl (fun errs '(k, v) => if decide (P k v) then errs ++ [f k v] else errs) acc l =
  acc ++ map (uncurry f) (filter (uncurry P) l).
Proof.
  revert acc. induction l as [|[k v] l IH]; intros acc; simpl.
  - by rewrite app_nil_r.
  - rewrite IH, filter_cons. simpl. destruct (decide (P k v)); [|done].
    simpl. by rewrite <- app_assoc.
Qed.

Lemma filter_nil_iff {A} (P : A -> Prop) `{!forall x, Decision (P x)} (l : list A) :
  filter P l = [] <-> forall x, x ∈ l -> ~ P x.
Proof.
  split.
  - intros Hnil x Hx HP.
    assert (x ∈ filter P l) as Hin by (by apply list_elem_of_filter).
    rewrite Hnil in Hin. by apply elem_of_nil in Hin.
  - intros Hall. induction l as [|x l IH]; [done|].
    rewrite filter_cons. destruct (decide (P x)) as [HP|_].
    + exfalso. apply (Hall x); [left|done].
    + apply IH. intros y Hy. apply Hall. by right.
Qed.

Lemma map_nil_iff {A B} (f : A -> B) (l : list A) : map f l = [] <-> l = [].
Proof. by destruct l. Qed.

Section aws_facts.
Variable rangeLabels : Labels -> list (string * string).
Hypothesis rangeLabels_ok : labelOrders rangeLabels.

Lemma selector_errors_nil (field : string) (selector : option Labels)
    (f : string -> string -> AWSProvider.FieldError) :
  match selector with
  | None => [AWSProvider.ErrMissingField field]
  | Some _ => []
  end ++
  map (uncurry f)
      (filter (uncurry (fun key value => key = EmptyString \/ value = EmptyString))
              (rangeLabels (default ∅ selector))) = [] <->
  selectorValid selector.
Proof.
  unfold selectorValid. destruct selector as [m|]; simpl.
  - rewrite map_nil_iff, filter_nil_iff. split.
    + intros H. exists m. split; [done|]. intros key value Hkv.
      assert ((key, value) ∈ rangeLabels m) as Hin
        by (rewrite (rangeLabels_ok m); by apply elem_of_map_to_list).
      specialize (H _ Hin). simpl in H. split; intros ->; apply H; auto.
    + intros (m' & [= <-] & H) [key value] Hin. simpl.
      rewrite (rangeLabels_ok m) in Hin. apply elem_of_map_to_list in Hin.
      destruct (H _ _ Hin). tauto.
  - split; [done|]. by intros (m & ? & _).
Qed.

(** X13.  [Validate] accepts a provider exactly when both selectors are given
    with no empty key and no empty value, and no tag has the empty key. *)
Theorem aws_validate_accepts (a : AWSProvider.AWS) :
  AWSProvider.Validate rangeLabels a = [] <->
  selectorValid (AWSProvider.SubnetSelector a) /\
  selectorValid (AWSProvider.SecurityGroupSelector a) /\
  AWSProvider.Tags a !! EmptyString = None.
Proof.
  unfold AWSProvider.Validate, AWSProvider.validate. rewrite map_nil_iff.
  unfold AWSProvider.validateLaunchTemplate, AWSProvider.validateSubnets,
    AWSProvider.validateSecurityGroups, AWSProvider.validateTags.
  rewrite app_nil_l, !app_nil.
  rewrite (foldl_collect (fun key value => key = EmptyString \/ value = EmptyString)).
  rewrite (foldl_collect (fun key value => key = EmptyString \/ value = EmptyString)).
  rewrite (foldl_collect (fun tagKey _ => tagKey = EmptyString)).
  rewrite !selector_errors_nil. rewrite app_nil_l, map_nil_iff, filter_nil_iff.
  split; intros (Hs & Hg & Ht); (split; [done|split; [done|]]).
  - destruct (AWSProvider.Tags a !! EmptyString) as [value|] eqn:E; [|done].
    exfalso. apply (Ht (EmptyString, value)); [|done].
    rewrite (rangeLabels_ok _). by apply elem_of_map_to_list.
  - intros [key value] Hin. simpl. intros ->.
    rewrite (rangeLabels_ok _) in Hin. apply elem_of_map_to_list in Hin. congruence.
Qed.

End aws_facts.

(** X14.  The errors that [Validate] reports do not depend on the order in which
    the maps are visited, up to their order in the report. *)
Theorem aws_validate_order (rangeLabels rangeLabels' : Labels -> list (string * string))
    (a : AWSProvider.AWS) :
  labelOrders rangeLabels ->
  labelOrders rangeLabels' ->
  AWSProvider.Validate rangeLabels a ≡ₚ AWSProvider.Validate rangeLabels' a.
Proof.
  intros H H'.
  assert (forall m, rangeLabels m ≡ₚ rangeLabels' m) as Heq
    by (intros m; by rewrite (H m), (H' m)).
  unfold AWSProvider.Validate, AWSProvider.validate.
  unfold AWSProvider.validateLaunchTemplate, AWSProvider.validateSubnets,
    AWSProvider.validateSecurityGroups, AWSProvider.validateTags.
  rewrite !(foldl_collect (fun key value => key = EmptyString \/ value = EmptyString)).
  rewrite !(foldl_collect (fun tagKey _ => tagKey = EmptyString)).
  apply Permutation_map. repeat apply Permutation_app; try done.
  all: apply Permutation_map; by rewrite Heq.
Qed.

Section options_facts.
Variable url_Parse : string -> result Options.URL.

(** X15.  [Validate] accepts the options exactly when the cluster endpoint
    parses as a URL with a scheme and a host name, the cluster name is
    not empty and the node name convention is one of the two known ones;
    the ports and the client rates are not looked at.  Every rule that is
    broken is reported: there are as many messages as broken rules. *)
Theorem options_validate (o : Options.Options) :
  let endpoint :=
    exists u, url_Parse (Options.ClusterEndpoint o) = Ok u /\
              Options.Scheme u <> EmptyString /\ Options.Hostname u <> EmptyString in
  let convention :=
    Options.AWSNodeNameConvention o = "ip-name"%string \/
    Options.AWSNodeNameConvention o = "resource-name"%string in
  (Options.Validate url_Parse o = [] <->
   endpoint /\ Options.ClusterName o <> EmptyString /\ convention) /\
  (Options.validateEndpoint url_Parse o = None <-> endpoint) /\
  length (Options.Validate url_Parse o) =
    (match Options.validateEndpoint url_Parse o with Some _ => 1 | None => 0 end +
   (if decide (Options.ClusterName o = EmptyString) then 1 else 0) +
   (if decide convention then 0 else 1))%nat.
Proof.
  simpl.
  assert (Options.validateEndpoint url_Parse o = None <->
          exists u, url_Parse (Options.ClusterEndpoint o) = Ok u /\
                    Options.Scheme u <> EmptyString /\ Options.Hostname u <> EmptyString)
    as Hend.
  { unfold Options.validateEndpoint, Options.IsAbs.
    destruct (url_Parse (Options.ClusterEndpoint o)) as [u|err].
    - destruct (String.eqb_spec (Options.Scheme u) "") as [Hs|Hs];
        destruct (String.eqb_spec (Options.Hostname u) "") as [Hh|Hh]; simpl.
      4: { split; [|done]. intros _. by exists u. }
      all: split; [done|]; intros (u' & [= <-] & ? & ?); done.
    - split; [done|]. by intros (u & ? & _). }
  unfold Options.Validate.
  destruct (Options.validateEndpoint url_Parse o) as [message|] eqn:E;
    destruct (String.eqb_spec (Options.ClusterName o) "") as [Hc|Hc];
    destruct (String.eqb_spec (Options.AWSNodeNameConvention o) "ip-name") as [Hi|Hi];
    destruct (String.eqb_spec (Options.AWSNodeNameConvention o) "resource-name")
      as [Hr|Hr]; simpl.
  all: destruct (decide (Options.ClusterName o = "")); [|]; try done.
  all: destruct (decide (Options.AWSNodeNameConvention o = "ip-name" \/
                         Options.AWSNodeNameConvention o = "resource-name"))
         as [Hd|Hd]; try (exfalso; tauto).
  all: split; [|split; [done|done]].
  all: try (split; [done|]; intros (He & ? & ?); try done; apply Hend in He; done).
  all: split; [intros _|done]; split; [by apply Hend|tauto].
Qed.

End options_facts.

(** * Examples for the controllers, the volumes and the validation *)

Lemma collisionFree_cpu (name : string) (capacity allocatable : ResourceList) (q : Z) :
  utf8_ValidString name = true ->
  collisionFree exampleProvisionerKey exampleCapacityKey
    (exampleNode name capacity allocatable) {[ ResourceCPU := q ]}.
Proof.
  intros Hname name' [x [<- _]%lookup_singleton_Some]. by apply publishable_cpu.
Qed.

Lemma collisionFree_empty prov cap (node : Node) : collisionFree prov cap node ∅.
Proof. intros name [x H]. by rewrite lookup_empty in H. Qed.

Lemma collisionFree_n1 (items : list Pod) (g : Node.gauge) :
  ListPods (cluster n1 [regularPod; daemonPod]) "n1" = Ok items ->
  collisionFree exampleProvisionerKey exampleCapacityKey n1
    (resourceListFor map_to_list n1 items g).
Proof.
  intros [= <-].
  assert (forall src q, resourceListFor map_to_list n1 [regularPod; daemonPod] g = src ->
            src = {[ ResourceCPU := q ]} \/ src = ∅ ->
            collisionFree exampleProvisionerKey exampleCapacityKey n1
              (resourceListFor map_to_list n1 [regularPod; daemonPod] g)) as H.
  { intros src q -> [->| ->].
    - by apply (collisionFree_cpu "n1").
    - apply collisionFree_empty. }
  destruct g.
  - apply (H _ (cores 3800) eq_refl). by left.
  - apply (H _ (cores 1000) eq_refl). by left.
  - apply (H _ (cores 2000) eq_refl). by left.
  - apply (H _ (cores 200) eq_refl). by left.
  - apply (H _ 0 eq_refl). by right.
  - apply (H _ (cores 200) eq_refl). by left.
Qed.


(** X3, witness: the allocatable series of n1 after its reconciliation. *)
Lemma reconcile_no_stale_series_witness :
  let kubeClient := cluster n1 [regularPod; daemonPod] in
  rangeOrders map_to_list /\
  Node.gaugeVecs ≡ₚ Node.gaugeVecs /\
  Node.allocatable (Node.Gauges afterN1) !! cpuLabels "n1" = Some 3.8%float /\
  cpuLabels "n1" !! Node.nodeName = Some "n1"%string /\
  exists name q,
    resourceListFor map_to_list n1 [regularPod; daemonPod] Node.allocatableGaugeVec
      !! name = Some q /\
    cpuLabels "n1" =
      Node.generateLabels exampleProvisionerKey exampleCapacityKey n1
        (Node.resourceTypeName name) /\
    3.8%float = Node.gaugeValue name q.
Proof.
  simpl. split; [apply rangeOrders_map_to_list|]. split; [reflexivity|].
  split; [reflexivity|]. split; [reflexivity|].
  apply (reconcile_no_stale_series exampleProvisionerKey exampleCapacityKey map_to_list
           Node.gaugeVecs (cluster n1 [regularPod; daemonPod]) "n1" n1
           [regularPod; daemonPod] Node.NewController Node.allocatableGaugeVec
           (cpuLabels "n1") 3.8%float rangeOrders_map_to_list (Permutation_refl _)
           (reachable_NewController _ _) eq_refl eq_refl eq_refl eq_refl).
Defined.

(** X2, witness: reconciling n2 leaves the allocatable series of n1. *)
Lemma reconcile_other_nodes_witness :
  reachable exampleProvisionerKey exampleCapacityKey afterN1 /\
  nodeKey (label (cpuLabels "n1") Node.nodeName) <> nodeKey "n2" /\
  GetNode (cluster overcommitted []) (nodeKey "n2") = Ok overcommitted /\
  Node.allocatable
    (Node.Gauges
       (Node.Reconcile exampleProvisionerKey exampleCapacityKey map_to_list
          Node.gaugeVecs (cluster overcommitted []) (nodeKey "n2") afterN1).2)
    !! cpuLabels "n1" =
  Node.allocatable (Node.Gauges afterN1) !! cpuLabels "n1".
Proof.
  assert (reachable exampleProvisionerKey exampleCapacityKey afterN1) as Hr.
  { apply reachable_Reconcile;
      [apply rangeOrders_map_to_list|reflexivity|apply reachable_NewController]. }
  split; [exact Hr|]. split; [discriminate|]. split; [reflexivity|].
  apply (reconcile_other_nodes exampleProvisionerKey exampleCapacityKey map_to_list
           Node.gaugeVecs (cluster overcommitted []) (nodeKey "n2") afterN1
           Node.allocatableGaugeVec (cpuLabels "n1") Hr).
  - discriminate.
  - intros node [= <-]. discriminate.
Defined.

(** X4, witness: the cpu of n1 is accepted by the allocatable vector. *)
Lemma insertGaugeValues_error_witness :
  rangeOrders map_to_list /\
  ((Node.insertGaugeValues exampleProvisionerKey exampleCapacityKey map_to_list
      {[ ResourceCPU := cores 3800 ]} n1 Node.allocatableGaugeVec Node.NewController).1
     = None <->
   forall name, is_Some (({[ ResourceCPU := cores 3800 ]} : ResourceList) !! name) ->
     validateLabels Node.labelNames
       (Node.generateLabels exampleProvisionerKey exampleCapacityKey n1
          (Node.resourceTypeName name)) = None).
Proof.
  split; [apply rangeOrders_map_to_list|].
  apply (insertGaugeValues_error exampleProvisionerKey exampleCapacityKey map_to_list
           {[ ResourceCPU := cores 3800 ]} n1 Node.allocatableGaugeVec Node.NewController
           rangeOrders_map_to_list).
Defined.

(** X5, witness: the pod "web" is reconciled and is then gone. *)
Lemma deleted_pod_witness :
  podReachable exampleProvisionerKey exampleCapacityKey exampleMarshal afterWeb /\
  GetPod emptyCluster webKey = Err ErrNotFound /\
  let out :=
    Pod.Reconcile exampleProvisionerKey exampleCapacityKey exampleMarshal
                  emptyCluster webKey afterWeb in
  out.1 = None /\
  Pod.LabelsMap out.2 = Pod.LabelsMap afterWeb /\
  forall old, Pod.LabelsMap afterWeb !! webKey = Some old ->
    Pod.podGaugeVec out.2 !! old = None.
Proof.
  assert (podReachable exampleProvisionerKey exampleCapacityKey exampleMarshal afterWeb)
    as Hr by (apply podReachable_Reconcile, podReachable_NewController).
  split; [exact Hr|]. split; [reflexivity|].
  destruct (deleted_pod exampleProvisionerKey exampleCapacityKey exampleMarshal
              emptyCluster webKey afterWeb ErrNotFound Hr eq_refl eq_refl)
    as (H1 & H2 & H3 & _).
  split; [exact H1|]. split; [exact H2|]. intros old Hold. exact (proj1 (H3 old Hold)).
Defined.

(** X6, witness: the pod "web" is reconciled for the first time. *)
Lemma pod_relabelled_witness :
  let kubeClient := cluster n1 [orphanPod] in
  podReachable exampleProvisionerKey exampleCapacityKey exampleMarshal Pod.NewController /\
  GetPod kubeClient webKey = Ok orphanPod /\
  (Pod.Reconcile exampleProvisionerKey exampleCapacityKey exampleMarshal
                 kubeClient webKey Pod.NewController).1 = None /\
  exists newlabels,
    Pod.generateLabels exampleProvisionerKey exampleCapacityKey exampleMarshal
      kubeClient orphanPod = Ok newlabels /\
    Pod.LabelsMap afterWeb = <[webKey := newlabels]> ∅ /\
    Pod.podGaugeVec afterWeb !! newlabels = Some 1%float.
Proof.
  simpl. split; [apply podReachable_NewController|]. split; [reflexivity|].
  split; [reflexivity|].
  destruct (pod_relabelled exampleProvisionerKey exampleCapacityKey exampleMarshal
              (cluster n1 [orphanPod]) webKey Pod.NewController orphanPod
              (podReachable_NewController _ _ _) eq_refl eq_refl)
    as (newlabels & H1 & H2 & H3 & _).
  exists newlabels. split; [exact H1|]. split; [exact H2|exact H3].
Defined.

(** X7, witness: the unbound claim "data" of the zonal class. *)
Lemma claim_requirements_witness :
  Selection.GetClaim volumeCluster {| Namespace := "default"; Name := "data" |}
    = Ok dataClaim /\
  Selection.getRequirements volumeCluster (dataPod None)
    {| Selection.PersistentVolumeClaim := Some "data"%string |} =
  Ok [ {| Selection.Key := LabelTopologyZone;
          Selection.Operator := Selection.NodeSelectorOpIn;
          Selection.Values := ["us-west-2a"%string] |} ].
Proof.
  split; [reflexivity|].
  destruct (claim_requirements volumeCluster (dataPod None) "data" dataClaim eq_refl)
    as (_ & H & _).
  apply (H eq_refl "zonal"%string zonalClass eq_refl); [discriminate|reflexivity].
Defined.

(** X8, witness: the zone of the claim joins the required architecture. *)
Lemma inject_appends_witness :
  let pod := dataPod (Some archAffinity) in
  let zone := [ topologyRequirement zoneExpression ] in
  volumeRequirements volumeCluster pod [zone] /\
  requiredTerms pod = [archTerm] /\
  exists pod',
    Selection.Inject volumeCluster pod = Selection.Returns None pod' /\
    requiredTerms pod' =
      [ {| Selection.MatchExpressions := Selection.MatchExpressions archTerm ++ zone;
           Selection.MatchFields := [] |} ].
Proof.
  simpl.
  assert (volumeRequirements volumeCluster (dataPod (Some archAffinity))
            [[topologyRequirement zoneExpression]]) as Hv
    by (repeat constructor).
  split; [exact Hv|]. split; [reflexivity|].
  destruct (inject_appends volumeCluster (dataPod (Some archAffinity))
              [[topologyRequirement zoneExpression]] archTerm [] Hv)
    as (pod' & H1 & H2 & _); [discriminate|reflexivity|].
  exists pod'. split; [exact H1|exact H2].
Defined.

(** X9, witness: the same pod without affinity makes [Inject] panic. *)
Lemma inject_panics_witness :
  Selection.Inject volumeCluster (dataPod None) = Selection.Panics.
Proof.
  apply (inject_panics volumeCluster (dataPod None)). split; [reflexivity|].
  exists [[topologyRequirement zoneExpression]].
  split; [repeat constructor|discriminate].
Defined.

(** X11, witness: a node five minutes old is looked at again in ten. *)
Lemma liveness_young_witness :
  let now := 5 * Liveness.Minute in
  let out := Liveness.Reconcile noCondition now (fun _ => None) silentNode in
  now - Liveness.CreationTimestamp silentNode < Liveness.LivenessTimeout /\
  Liveness.Deleted out = false /\
  Liveness.RequeueAfter out = 10 * Liveness.Minute /\
  Liveness.Deleted
    (Liveness.Reconcile noCondition (now + Liveness.RequeueAfter out) (fun _ => None)
       silentNode) = true.
Proof.
  simpl. split; [reflexivity|].
  destruct (liveness_young noCondition (5 * Liveness.Minute) (fun _ => None) silentNode
              eq_refl) as (H1 & _ & _ & _).
  split; [exact H1|]. split; reflexivity.
Defined.

(** X13, witness: the example provider is accepted. *)
Lemma aws_validate_accepts_witness :
  labelOrders map_to_list /\
  AWSProvider.Validate map_to_list exampleAWS = [].
Proof.
  assert (labelOrders map_to_list) as H by (intros m; reflexivity).
  split; [exact H|].
  apply (aws_validate_accepts map_to_list H exampleAWS).
  split; [|split; [|reflexivity]].
  - eexists. split; [reflexivity|]. intros key value Hkv.
    apply lookup_singleton_Some in Hkv as [<- <-]. split; discriminate.
  - eexists. split; [reflexivity|]. intros key value Hkv.
    apply lookup_singleton_Some in Hkv as [<- <-]. split; discriminate.
Defined.

(** X14, witness: the maps visited in key order and in the reverse. *)
Lemma aws_validate_order_witness :
  labelOrders map_to_list /\
  labelOrders (fun m => reverse (map_to_list m)) /\
  AWSProvider.Validate map_to_list exampleAWS ≡ₚ
  AWSProvider.Validate (fun m => reverse (map_to_list m)) exampleAWS.
Proof.
  assert (labelOrders map_to_list) as H by (intros m; reflexivity).
  assert (labelOrders (fun m => reverse (map_to_list m))) as H'
    by (intros m; apply reverse_Permutation).
  split; [exact H|]. split; [exact H'|].
  apply (aws_validate_order map_to_list (fun m => reverse (map_to_list m)) exampleAWS H H').
Defined.
